(** * civiStories: the i18n manager of [src/config.js]

    A shallow embedding of class [I18n] (language registry, preference
    store, bundle loader, translation manager, page binder) together with
    the part of the JavaScript object model its code relies on, and the
    properties of the load / apply / fallback pipeline.

    Conventions.
    - A method that mutates the manager or its surroundings is a computation
      in the monad [M]: it threads a [World] (the [I18n] instance, the DOM,
      [localStorage], the network log, the dispatched events) and ends in
      [Ok v] or [Throw e].  [try_catch] is the [try { } catch { }] block.
    - [await] is sequencing: one call runs to completion before the next.
    - Console output is not part of the model.
    - The language manifest follows the documented shape
      [{ languages: [{code, name, flag, dir}], defaultLang }]; bundles are
      arbitrary JSON documents. *)

From Stdlib Require Import String Ascii ZArith List DecimalString Lia.
From stdpp Require Import base option list strings gmap.

Import ListNotations.
Local Open Scope string_scope.
Set Warnings "-register-all".

(** ** JavaScript values *)

(** The two built-in prototype objects a parsed JSON document inherits from. *)
Inductive Proto : Type :=
  | ObjectPrototype
  | ArrayPrototype.

(** Values: what [JSON.parse] produces ([JNull] .. [JObj]), [undefined],
    and the built-in functions and prototype objects reachable from a JSON
    document through inherited properties.  Numbers are the integer-valued
    ones.  An object is its list of own properties (first entry wins). *)
Inductive JVal : Type :=
  | JUndef
  | JNull
  | JBool (b : bool)
  | JNum (n : Z)
  | JStr (s : string)
  | JArr (items : list JVal)
  | JObj (fields : list (string * JVal))
  | JFunc (name : string)
  | JProto (p : Proto).

Inductive Exn : Type :=
  | TypeError
  | SyntaxError
  | NetworkError
  | StorageError
  | Error (msg : string).

Inductive Result (A : Type) : Type :=
  | Ok (a : A)
  | Throw (e : Exn).

Arguments Ok {A} a.
Arguments Throw {A} e.

(** ToBoolean. *)
Definition truthy (v : JVal) : bool :=
  match v with
  | JUndef | JNull => false
  | JBool b => b
  | JNum n => negb (Z.eqb n 0)
  | JStr s => negb (String.eqb s "")
  | JArr _ | JObj _ | JFunc _ | JProto _ => true
  end.

(** [typeof v === 'object'] *)
Definition typeof_object (v : JVal) : bool :=
  match v with
  | JNull | JArr _ | JObj _ | JProto _ => true
  | JUndef | JBool _ | JNum _ | JStr _ | JFunc _ => false
  end.

(** [a === b] where [b] is a string literal. *)
Definition strict_eq_str (a : JVal) (s : string) : bool :=
  match a with
  | JStr x => String.eqb x s
  | _ => false
  end.

(** [a || b] *)
Definition js_or (a b : JVal) : JVal := if truthy a then a else b.

Definition mem_string (k : string) (l : list string) : bool :=
  existsb (String.eqb k) l.

(** String-keyed properties of [Object.prototype] (ECMA-262 with Annex B). *)
Definition object_prototype_keys : list string :=
  [ "constructor"; "hasOwnProperty"; "isPrototypeOf"; "propertyIsEnumerable";
    "toLocaleString"; "toString"; "valueOf"; "__proto__";
    "__defineGetter__"; "__defineSetter__";
    "__lookupGetter__"; "__lookupSetter__" ].

(** String-keyed methods of [Array.prototype] (ECMA-262, 2023). *)
Definition array_prototype_keys : list string :=
  [ "at"; "concat"; "constructor"; "copyWithin"; "entries"; "every"; "fill";
    "filter"; "find"; "findIndex"; "findLast"; "findLastIndex"; "flat";
    "flatMap"; "forEach"; "includes"; "indexOf"; "join"; "keys";
    "lastIndexOf"; "map"; "pop"; "push"; "reduce"; "reduceRight"; "reverse";
    "shift"; "slice"; "some"; "sort"; "splice"; "toLocaleString";
    "toReversed"; "toSorted"; "toSpliced"; "toString"; "unshift"; "values";
    "with" ].

(** Own property of an object. *)
Fixpoint own_property (fields : list (string * JVal)) (k : string) : option JVal :=
  match fields with
  | [] => None
  | (k', v) :: rest => if String.eqb k' k then Some v else own_property rest k
  end.

(** The canonical decimal spelling of an array index. *)
Definition index_key (i : nat) : string :=
  NilEmpty.string_of_uint (Nat.to_uint i).

(** Own indexed property of an array whose first element has index [i]. *)
Fixpoint array_element (i : nat) (items : list JVal) (k : string) : option JVal :=
  match items with
  | [] => None
  | x :: rest => if String.eqb (index_key i) k then Some x
                 else array_element (S i) rest k
  end.

(** A property found on [Object.prototype] itself ([__proto__] is an
    accessor and is resolved by the receiver, see [lookup_member]). *)
Definition object_prototype_member (k : string) : option JVal :=
  if String.eqb k "constructor" then Some (JFunc "Object")
  else if mem_string k object_prototype_keys
       then Some (JFunc ("Object.prototype." ++ k))
       else None.

(** A property found on [Array.prototype] or further up the chain. *)
Definition array_prototype_member (k : string) : option JVal :=
  if String.eqb k "length" then Some (JNum 0)
  else if String.eqb k "constructor" then Some (JFunc "Array")
  else if mem_string k array_prototype_keys
       then Some (JFunc ("Array.prototype." ++ k))
       else object_prototype_member k.

(** Property resolution on a value whose [typeof] is ['object']: own
    properties first, then the prototype chain.  [None] is "not [in]". *)
Definition lookup_member (v : JVal) (k : string) : option JVal :=
  match v with
  | JObj fields =>
      match own_property fields k with
      | Some x => Some x
      | None => if String.eqb k "__proto__" then Some (JProto ObjectPrototype)
                else object_prototype_member k
      end
  | JArr items =>
      match array_element 0 items k with
      | Some x => Some x
      | None => if String.eqb k "length" then Some (JNum (Z.of_nat (length items)))
                else if String.eqb k "__proto__" then Some (JProto ArrayPrototype)
                else array_prototype_member k
      end
  | JProto ArrayPrototype =>
      if String.eqb k "__proto__" then Some (JProto ObjectPrototype)
      else array_prototype_member k
  | JProto ObjectPrototype =>
      if String.eqb k "__proto__" then Some JNull
      else object_prototype_member k
  | _ => None
  end.

(** [k in v] *)
Definition has_property (v : JVal) (k : string) : bool :=
  match lookup_member v k with Some _ => true | None => false end.

(** [v[k]] on an object *)
Definition get_member (v : JVal) (k : string) : JVal :=
  match lookup_member v k with Some x => x | None => JUndef end.

(** [v.k] on any value: a [TypeError] on [null] and [undefined].  On the
    remaining primitives and on functions the result is [undefined]; the
    code reads only [meta], [lang] and [dir] there, which no built-in
    prototype defines. *)
Definition get_prop (v : JVal) (k : string) : Result JVal :=
  match v with
  | JUndef | JNull => Throw TypeError
  | JObj _ | JArr _ | JProto _ => Ok (get_member v k)
  | JBool _ | JNum _ | JStr _ | JFunc _ => Ok JUndef
  end.

(** [v?.k] *)
Definition get_prop_opt (v : JVal) (k : string) : Result JVal :=
  match v with
  | JUndef | JNull => Ok JUndef
  | _ => get_prop v k
  end.

(** [s.split(sep)] for a one-character separator. *)
Fixpoint split (sep : ascii) (s : string) : list string :=
  match s with
  | EmptyString => [EmptyString]
  | String c rest =>
      if Ascii.eqb c sep then EmptyString :: split sep rest
      else match split sep rest with
           | x :: xs => String c x :: xs
           | [] => [String c EmptyString]
           end
  end.

(** ** Translation lookup: [I18n.t] *)

(** The [for (const k of keys)] loop of [t], with [value] the loop variable. *)
Fixpoint t_loop (key : string) (value : JVal) (keys : list string) : JVal :=
  match keys with
  | [] => value
  | k :: rest =>
      if truthy value && typeof_object value && has_property value k
      then t_loop key (get_member value k) rest
      else JStr key
  end.

(** [t(key)] against the active bundle. *)
Definition t_in (translations : JVal) (key : string) : JVal :=
  t_loop key translations (split "." key).

(** ** The manager, the page and the browser *)

(** One entry of the Language Registry. *)
Record LanguageDescriptor : Type := {
  code : string;
  name : string;
  flag : string;
  dir : string
}.

(** The fields of an [I18n] instance ([storageKey] is a constant). *)
Record I18n : Type := {
  currentLang : option string;
  translations : JVal;
  languages : list LanguageDescriptor;
  defaultLang : string
}.

Definition storageKey : string := "preferred_language".

(** [new I18n()] *)
Definition constructor : I18n :=
  {| currentLang := None; translations := JObj []; languages := [];
     defaultLang := "ar" |}.

(** A DOM node carrying translation markers.  The page is a flat list of
    such nodes; a written property holds the value assigned to it. *)
Record Element : Type := {
  data_i18n : option string;
  data_i18n_html : bool;
  data_i18n_placeholder : option string;
  data_i18n_title : option string;
  textContent : JVal;
  innerHTML : JVal;
  placeholder : JVal;
  title : JVal
}.

Record Img : Type := { src : string; alt : string }.

(** An entry of the [.lang-dropdown] built by [setupLanguageSwitcher]. *)
Record LangOption : Type := {
  data_lang : string;
  option_img : Img;
  option_label : string
}.

Record Document : Type := {
  html_lang : JVal;
  html_dir : JVal;
  elements : list Element;
  currentLangFlag : option Img;
  lang_dropdown : option (list LangOption)
}.

(** The [detail] of a [languageChanged] event. *)
Record LanguageChanged : Type := {
  detail_lang : option string;
  detail_dir : JVal
}.

(** What [fetch] followed by [response.json()] can produce: a rejected
    request, or a response with its [ok] flag whose body parses as JSON
    ([Some]) or does not ([None]). *)
Inductive Fetched (A : Type) : Type :=
  | Rejected
  | Response (ok : bool) (body : option A).

Arguments Rejected {A}.
Arguments Response {A} ok body.

(** [./locales/languages.json] *)
Record Manifest : Type := {
  manifest_languages : list LanguageDescriptor;
  manifest_defaultLang : option string
}.

Inductive Request : Type :=
  | GetManifest
  | GetBundle (langCode : string).

(** The surroundings the manager cannot change.  Every bundle request
    carries a fresh cache-busting token, so the server may answer the n-th
    request of a session differently from the others. *)
Record Browser : Type := {
  bundle_response : nat -> string -> Fetched JVal;
  manifest_response : nat -> Fetched Manifest;
  navigator_language : option string;
  navigator_userLanguage : option string;
  storage_readable : bool;
  storage_writable : bool
}.

Record World : Type := {
  i18n : I18n;
  document : Document;
  localStorage : gmap string string;
  requests : list Request;
  events : list LanguageChanged;
  browser : Browser
}.

Definition with_i18n (f : I18n -> I18n) (w : World) : World :=
  {| i18n := f (i18n w); document := document w;
     localStorage := localStorage w; requests := requests w;
     events := events w; browser := browser w |}.

Definition with_document (f : Document -> Document) (w : World) : World :=
  {| i18n := i18n w; document := f (document w);
     localStorage := localStorage w; requests := requests w;
     events := events w; browser := browser w |}.

Definition with_localStorage (f : gmap string string -> gmap string string)
    (w : World) : World :=
  {| i18n := i18n w; document := document w;
     localStorage := f (localStorage w); requests := requests w;
     events := events w; browser := browser w |}.

Definition with_requests (f : list Request -> list Request) (w : World) : World :=
  {| i18n := i18n w; document := document w;
     localStorage := localStorage w; requests := f (requests w);
     events := events w; browser := browser w |}.

Definition with_events (f : list LanguageChanged -> list LanguageChanged)
    (w : World) : World :=
  {| i18n := i18n w; document := document w;
     localStorage := localStorage w; requests := requests w;
     events := f (events w); browser := browser w |}.

Definition set_currentLang (c : option string) (self : I18n) : I18n :=
  {| currentLang := c; translations := translations self;
     languages := languages self; defaultLang := defaultLang self |}.

Definition set_translations (b : JVal) (self : I18n) : I18n :=
  {| currentLang := currentLang self; translations := b;
     languages := languages self; defaultLang := defaultLang self |}.

Definition set_languages (l : list LanguageDescriptor) (self : I18n) : I18n :=
  {| currentLang := currentLang self; translations := translations self;
     languages := l; defaultLang := defaultLang self |}.

Definition set_defaultLang (d : string) (self : I18n) : I18n :=
  {| currentLang := currentLang self; translations := translations self;
     languages := languages self; defaultLang := d |}.

(** ** The monad of effectful methods *)

(** [None] is a computation that ran out of fuel (see [setLanguage_fuel]). *)
Definition M (A : Type) : Type := World -> option (Result A * World).

Definition ret {A} (a : A) : M A := fun w => Some (Ok a, w).

Definition throw {A} (e : Exn) : M A := fun w => Some (Throw e, w).

Definition bind {A B} (m : M A) (k : A -> M B) : M B :=
  fun w =>
    match m w with
    | Some (Ok a, w') => k a w'
    | Some (Throw e, w') => Some (Throw e, w')
    | None => None
    end.

Definition try_catch {A} (m : M A) (handler : Exn -> M A) : M A :=
  fun w =>
    match m w with
    | Some (Throw e, w') => handler e w'
    | r => r
    end.

Definition gets {A} (f : World -> A) : M A := fun w => Some (Ok (f w), w).

Definition modify (f : World -> World) : M unit := fun w => Some (Ok tt, f w).

Definition lift {A} (r : Result A) : M A := fun w => Some (r, w).

Notation "'let*' x ':=' m 'in' k" := (bind m (fun x => k))
  (at level 10, x name, m at level 100, k at level 200).
Notation "m ';;' k" := (bind m (fun _ => k))
  (at level 100, k at level 200, right associativity).

(** ** Browser primitives *)

(** [await fetch(url)], then the response's [ok] flag and body.  The
    request is logged; the answer is the server's answer to the n-th
    request of the session. *)
Definition fetch {A} (req : Request) (respond : Browser -> nat -> Fetched A)
    : M (bool * option A) :=
  fun w =>
    let w' := with_requests (fun log => (log ++ [req])%list) w in
    match respond (browser w) (length (requests w)) with
    | Rejected => Some (Throw NetworkError, w')
    | Response ok body => Some (Ok (ok, body), w')
    end.

(** [await response.json()] *)
Definition response_json {A} (response : bool * option A) : M A :=
  match snd response with
  | Some data => ret data
  | None => throw SyntaxError
  end.

(** [localStorage.getItem(key)] *)
Definition localStorage_getItem (key : string) : M (option string) :=
  fun w =>
    if storage_readable (browser w)
    then Some (Ok (localStorage w !! key), w)
    else Some (Throw StorageError, w).

(** [localStorage.setItem(key, value)] *)
Definition localStorage_setItem (key value : string) : M unit :=
  fun w =>
    if storage_writable (browser w)
    then Some (Ok tt, with_localStorage (fun store => <[key := value]> store) w)
    else Some (Throw StorageError, w).

(** [window.dispatchEvent(new CustomEvent('languageChanged', {detail}))] *)
Definition dispatchEvent (detail : LanguageChanged) : M unit :=
  modify (with_events (fun fired => (fired ++ [detail])%list)).

(** [a || b] on values that are a string or null/undefined. *)
Definition or_string (a b : option string) : option string :=
  match a with
  | Some s => if String.eqb s "" then b else Some s
  | None => b
  end.

(** [a || d] where [d] is a string. *)
Definition or_default (a : option string) (d : string) : string :=
  match or_string a (Some d) with
  | Some s => s
  | None => d
  end.

(** [languages.find(l => l.code === c)] *)
Definition find_language (langs : list LanguageDescriptor) (c : string)
    : option LanguageDescriptor :=
  List.find (fun l => String.eqb (code l) c) langs.

(** ** Methods of [I18n] *)

(** [t(key)]: dot-separated lookup in the active bundle. *)
Definition t (self : I18n) (key : string) : JVal :=
  t_loop key (translations self) (split "." key).

(** [get(key)] *)
Definition get (self : I18n) (key : string) : JVal := t self key.

(** [getCurrentLang()] *)
Definition getCurrentLang (self : I18n) : option string := currentLang self.

(** [getLanguages()] *)
Definition getLanguages (self : I18n) : list LanguageDescriptor := languages self.

(** [getDirection()]: [this.translations.meta?.dir || 'ltr'] *)
Definition getDirection (self : I18n) : Result JVal :=
  match get_prop (translations self) "meta" with
  | Throw e => Throw e
  | Ok meta =>
      match get_prop_opt meta "dir" with
      | Throw e => Throw e
      | Ok d => Ok (js_or d (JStr "ltr"))
      end
  end.

(** [isRTL()] *)
Definition isRTL (self : I18n) : Result bool :=
  match getDirection self with
  | Throw e => Throw e
  | Ok d => Ok (strict_eq_str d "rtl")
  end.

(** The hard-coded registry of [loadLanguages]'s [catch] branch. *)
Definition fallback_languages : list LanguageDescriptor :=
  [ {| code := "ar"; name := "العربية";
       flag := "https://flagcdn.com/w80/eg.png"; dir := "rtl" |};
    {| code := "en"; name := "English";
       flag := "https://flagcdn.com/w80/gb.png"; dir := "ltr" |} ].

(** [loadLanguages()] *)
Definition loadLanguages : M unit :=
  try_catch
    (let* response := fetch GetManifest manifest_response in
     let* data := response_json response in
     modify (with_i18n (set_languages (manifest_languages data))) ;;
     modify (with_i18n (set_defaultLang (or_default (manifest_defaultLang data) "ar"))))
    (fun _ => modify (with_i18n (set_languages fallback_languages))).

(** [getSavedLanguage()] *)
Definition getSavedLanguage : M (option string) :=
  try_catch (localStorage_getItem storageKey) (fun _ => ret None).

(** [saveLanguage(langCode)] *)
Definition saveLanguage (langCode : string) : M unit :=
  try_catch (localStorage_setItem storageKey langCode) (fun _ => ret tt).

(** [browserLang.split('-')[0]] *)
Definition primary_subtag (browserLang : string) : string :=
  match split "-" browserLang with
  | first :: _ => first
  | [] => ""
  end.

(** [getBrowserLanguage()] *)
Definition getBrowserLanguage : M (option string) :=
  let* browserLang := gets (fun w => or_string (navigator_language (browser w))
                                               (navigator_userLanguage (browser w))) in
  match or_string browserLang None with
  | None => ret None
  | Some browserLang =>
      let langCode := primary_subtag browserLang in
      let* supported := gets (fun w => find_language (languages (i18n w)) langCode) in
      ret (match supported with Some _ => Some langCode | None => None end)
  end.

(** One [[data-i18n]] node of [translatePage]'s first pass. *)
Definition translate_text (self : I18n) (el : Element) : Element :=
  match data_i18n el with
  | None => el
  | Some key =>
      let translation := t self key in
      if truthy translation then
        if data_i18n_html el then
          {| data_i18n := data_i18n el; data_i18n_html := data_i18n_html el;
             data_i18n_placeholder := data_i18n_placeholder el;
             data_i18n_title := data_i18n_title el;
             textContent := textContent el; innerHTML := translation;
             placeholder := placeholder el; title := title el |}
        else
          {| data_i18n := data_i18n el; data_i18n_html := data_i18n_html el;
             data_i18n_placeholder := data_i18n_placeholder el;
             data_i18n_title := data_i18n_title el;
             textContent := translation; innerHTML := innerHTML el;
             placeholder := placeholder el; title := title el |}
      else el
  end.

(** One [[data-i18n-placeholder]] node of the second pass. *)
Definition translate_placeholder (self : I18n) (el : Element) : Element :=
  match data_i18n_placeholder el with
  | None => el
  | Some key =>
      let translation := t self key in
      if truthy translation then
        {| data_i18n := data_i18n el; data_i18n_html := data_i18n_html el;
           data_i18n_placeholder := data_i18n_placeholder el;
           data_i18n_title := data_i18n_title el;
           textContent := textContent el; innerHTML := innerHTML el;
           placeholder := translation; title := title el |}
      else el
  end.

(** One [[data-i18n-title]] node of the third pass. *)
Definition translate_title (self : I18n) (el : Element) : Element :=
  match data_i18n_title el with
  | None => el
  | Some key =>
      let translation := t self key in
      if truthy translation then
        {| data_i18n := data_i18n el; data_i18n_html := data_i18n_html el;
           data_i18n_placeholder := data_i18n_placeholder el;
           data_i18n_title := data_i18n_title el;
           textContent := textContent el; innerHTML := innerHTML el;
           placeholder := placeholder el; title := translation |}
      else el
  end.

Definition set_elements (els : list Element) (d : Document) : Document :=
  {| html_lang := html_lang d; html_dir := html_dir d; elements := els;
     currentLangFlag := currentLangFlag d; lang_dropdown := lang_dropdown d |}.

Definition set_html_lang (v : JVal) (d : Document) : Document :=
  {| html_lang := v; html_dir := html_dir d; elements := elements d;
     currentLangFlag := currentLangFlag d; lang_dropdown := lang_dropdown d |}.

Definition set_html_dir (v : JVal) (d : Document) : Document :=
  {| html_lang := html_lang d; html_dir := v; elements := elements d;
     currentLangFlag := currentLangFlag d; lang_dropdown := lang_dropdown d |}.

Definition set_currentLangFlag (img : option Img) (d : Document) : Document :=
  {| html_lang := html_lang d; html_dir := html_dir d; elements := elements d;
     currentLangFlag := img; lang_dropdown := lang_dropdown d |}.

Definition set_lang_dropdown (opts : option (list LangOption)) (d : Document)
    : Document :=
  {| html_lang := html_lang d; html_dir := html_dir d; elements := elements d;
     currentLangFlag := currentLangFlag d; lang_dropdown := opts |}.

(** [translatePage()]: the three [querySelectorAll(...).forEach] passes. *)
Definition translatePage : M unit :=
  let* self := gets i18n in
  modify (with_document (fun d => set_elements (map (translate_text self) (elements d)) d)) ;;
  modify (with_document (fun d => set_elements (map (translate_placeholder self) (elements d)) d)) ;;
  modify (with_document (fun d => set_elements (map (translate_title self) (elements d)) d)).

(** [updateLanguageSwitcher()] *)
Definition updateLanguageSwitcher : M unit :=
  let* self := gets i18n in
  match currentLang self with
  | None => ret tt
  | Some cur =>
      match find_language (languages self) cur with
      | None => ret tt
      | Some currentLangData =>
          let* flagImg := gets (fun w => currentLangFlag (document w)) in
          match flagImg with
          | Some _ =>
              modify (with_document (set_currentLangFlag
                (Some {| src := flag currentLangData; alt := name currentLangData |})))
          | None => ret tt
          end
      end
  end.

(** [setupLanguageSwitcher()]: the dropdown is emptied and refilled with one
    option per registry entry (the click handlers are not modelled). *)
Definition setupLanguageSwitcher : M unit :=
  let* dropdown := gets (fun w => lang_dropdown (document w)) in
  match dropdown with
  | None => ret tt
  | Some _ =>
      let* langs := gets (fun w => languages (i18n w)) in
      modify (with_document (set_lang_dropdown (Some
        (map (fun lang => {| data_lang := code lang;
                             option_img := {| src := flag lang; alt := name lang |};
                             option_label := name lang |}) langs))))
  end.

(** [applyLanguage()] *)
Definition applyLanguage : M unit :=
  let* tr := gets (fun w => translations (i18n w)) in
  let* meta := lift (get_prop tr "meta") in
  let* lang := lift (get_prop meta "lang") in
  modify (with_document (set_html_lang lang)) ;;
  let* d := lift (get_prop meta "dir") in
  modify (with_document (set_html_dir d)) ;;
  translatePage ;;
  updateLanguageSwitcher ;;
  let* cur := gets (fun w => currentLang (i18n w)) in
  let* d := lift (get_prop meta "dir") in
  dispatchEvent {| detail_lang := cur; detail_dir := d |}.

(** The [try] block of [setLanguage]. *)
Definition setLanguage_try (langCode : string) : M bool :=
  let* response := fetch (GetBundle langCode)
                         (fun b n => bundle_response b n langCode) in
  if negb (fst response)
  then throw (Error ("Language file not found: " ++ langCode))
  else
    let* body := response_json response in
    modify (with_i18n (set_translations body)) ;;
    modify (with_i18n (set_currentLang (Some langCode))) ;;
    applyLanguage ;;
    saveLanguage langCode ;;
    ret true.

(** [setLanguage(langCode)]; [fuel] bounds the depth of the recursive
    call in the [catch] block. *)
Fixpoint setLanguage_fuel (fuel : nat) (langCode : string) : M bool :=
  match fuel with
  | O => fun _ => None
  | S fuel' =>
      try_catch (setLanguage_try langCode)
        (fun _ =>
           let* dl := gets (fun w => defaultLang (i18n w)) in
           if negb (String.eqb langCode dl)
           then setLanguage_fuel fuel' dl
           else ret false)
  end.

(** Two levels are all the recursion ever uses ([setLanguage_enough_fuel]). *)
Definition setLanguage (langCode : string) : M bool :=
  setLanguage_fuel 2 langCode.

(** [init()] *)
Definition init : M unit :=
  try_catch
    (loadLanguages ;;
     let* savedLang := getSavedLanguage in
     let* browserLang := getBrowserLanguage in
     let* dl := gets (fun w => defaultLang (i18n w)) in
     let initialLang := or_default (or_string savedLang browserLang) dl in
     setLanguage initialLang ;;
     setupLanguageSwitcher)
    (fun _ =>
       let* dl := gets (fun w => defaultLang (i18n w)) in
       setLanguage dl ;;
       ret tt).

(** ** Vocabulary of the statements *)

(** [c] is the code of some descriptor of the registry. *)
Definition registered (self : I18n) (c : string) : Prop :=
  exists l, In l (languages self) /\ code l = c.

(** [bundle.meta.dir], as [applyLanguage] reads it. *)
Definition meta_dir (bundle : JVal) : Result JVal :=
  match get_prop bundle "meta" with
  | Ok meta => get_prop meta "dir"
  | Throw e => Throw e
  end.

(** The server's answer to the next request, asked for [c]'s bundle. *)
Definition next_bundle (w : World) (c : string) : Fetched JVal :=
  bundle_response (browser w) (length (requests w)) c.

(** The bundle of [c] fails to load: the [try] block of [setLanguage] throws. *)
Definition load_fails (c : string) (w : World) : Prop :=
  exists e w1, setLanguage_try c w = Some (Throw e, w1).

(** The world once the request for [c]'s bundle is logged. *)
Definition logged (c : string) (w : World) : World :=
  with_requests (fun log => (log ++ [GetBundle c])%list) w.

(** The world once [body] is active as [c]'s bundle. *)
Definition swapped (c : string) (body : JVal) (w : World) : World :=
  with_i18n (set_currentLang (Some c)) (with_i18n (set_translations body) w).

(** The three ways the [try] block of [setLanguage(c)] can end: the bundle
    is not delivered (state untouched but for the log), it is delivered and
    swapped in but [applyLanguage] throws on its [meta], or it is applied,
    announced and saved.  [setLanguage_try_attempt] shows that every run of
    the block is one of them. *)
Inductive Attempt (c : string) (w : World) : Result bool -> World -> Prop :=
  | AttemptUnavailable (e : Exn) :
      (forall body, next_bundle w c <> Response true (Some body)) ->
      Attempt c w (Throw e) (logged c w)
  | AttemptMalformed (body : JVal) (e : Exn) :
      next_bundle w c = Response true (Some body) ->
      meta_dir body = Throw e ->
      Attempt c w (Throw e) (swapped c body (logged c w))
  | AttemptApplied (body d : JVal) (w' : World) :
      next_bundle w c = Response true (Some body) ->
      meta_dir body = Ok d ->
      i18n w' = i18n (swapped c body (logged c w)) ->
      requests w' = requests (logged c w) ->
      browser w' = browser w ->
      events w' = (events w ++ [ {| detail_lang := Some c; detail_dir := d |} ])%list ->
      localStorage w' =
        (if storage_writable (browser w)
         then <[storageKey := c]> (localStorage w) else localStorage w) ->
      Attempt c w (Ok true) w'.

(** The runs of [setLanguage(c)]: the first attempt succeeds; or it fails
    for the default language; or it fails for another language and the
    default language is attempted once.  [setLanguage_run] shows that
    every call is one of them. *)
Inductive SetLanguage (c : string) (w : World) : bool -> World -> Prop :=
  | SetLanguage_direct (w' : World) :
      Attempt c w (Ok true) w' ->
      SetLanguage c w true w'
  | SetLanguage_default_failed (e : Exn) (w1 : World) :
      Attempt c w (Throw e) w1 ->
      c = defaultLang (i18n w) ->
      SetLanguage c w false w1
  | SetLanguage_fallback (e : Exn) (w1 : World) (r : Result bool) (w2 : World) :
      Attempt c w (Throw e) w1 ->
      c <> defaultLang (i18n w) ->
      Attempt (defaultLang (i18n w)) w1 r w2 ->
      SetLanguage c w (match r with Ok b => b | Throw _ => false end) w2.

(** The manifest cannot be had: the request is rejected or its body is not
    JSON. *)
Definition manifest_unavailable (w : World) : Prop :=
  forall ok data,
    manifest_response (browser w) (length (requests w)) <> Response ok (Some data).

(** The language the browser reports, if any:
    [navigator.language || navigator.userLanguage]. *)
Definition browser_language (b : Browser) : option string :=
  or_string (or_string (navigator_language b) (navigator_userLanguage b)) None.

(** The primary subtag of a language tag: what precedes its first hyphen. *)
Fixpoint before_hyphen (tag : string) : string :=
  match tag with
  | EmptyString => EmptyString
  | String c rest =>
      if Ascii.eqb c "-" then EmptyString else String c (before_hyphen rest)
  end.

(** The preference [init] reads back. *)
Definition saved_preference (w : World) : option string :=
  if storage_readable (browser w) then localStorage w !! storageKey else None.

(** The active language, if any, is a code of the registry. *)
Definition active_registered (self : I18n) : Prop :=
  forall a, currentLang self = Some a -> registered self a.

(** An own property of a mapping, or an element of a list. *)
Definition own_member (v : JVal) (k : string) : option JVal :=
  match v with
  | JObj fields => own_property fields k
  | JArr items => array_element 0 items k
  | _ => None
  end.

(** The value reached by traversing the nested mapping along a path. *)
Fixpoint resolve (v : JVal) (path : list string) : option JVal :=
  match path with
  | [] => Some v
  | k :: rest =>
      match own_member v k with
      | Some x => resolve x rest
      | None => None
      end
  end.

(** Lookup as the specification words it: the value reached along the
    dot-separated path, and the key itself when a segment is missing. *)
Definition lookup (bundle : JVal) (key : string) : JVal :=
  match resolve bundle (split "." key) with
  | Some v => v
  | None => JStr key
  end.

(** A name that objects and arrays carry without the document defining
    it: the properties of the two prototypes, and [length]. *)
Definition builtin_name (k : string) : bool :=
  mem_string k (object_prototype_keys ++ array_prototype_keys ++ ["length"])%list.

(** The result and the final world of running [m] from [w]. *)
Definition outcome {A} (m : M A) (w : World) : option (Result A) :=
  match m w with Some (r, _) => Some r | None => None end.

Definition after {A} (m : M A) (w : World) : World :=
  match m w with Some (_, w') => w' | None => w end.

(** ** Sample pages, bundles and servers *)

(** A bundle with its [meta] entry and the nested mapping [{a:{b:{c:"X"}}}]. *)
Definition sample_bundle (lang d : string) : JVal :=
  JObj [ ("meta", JObj [("lang", JStr lang); ("dir", JStr d)]);
         ("a", JObj [("b", JObj [("c", JStr "X")])]) ].

Definition sample_page : Document :=
  {| html_lang := JStr "ar"; html_dir := JStr "rtl";
     elements := [ {| data_i18n := Some "a.b.c"; data_i18n_html := false;
                      data_i18n_placeholder := None; data_i18n_title := None;
                      textContent := JStr ""; innerHTML := JStr "";
                      placeholder := JStr ""; title := JStr "" |} ];
     currentLangFlag := Some {| src := ""; alt := "" |};
     lang_dropdown := Some [] |}.

(** A browser set to [en-US] with working storage, in front of a server
    that answers a bundle request with [bundles] and has no manifest. *)
Definition sample_browser (bundles : string -> Fetched JVal) : Browser :=
  {| bundle_response := fun _ c => bundles c;
     manifest_response := fun _ => Rejected;
     navigator_language := Some "en-US";
     navigator_userLanguage := None;
     storage_readable := true;
     storage_writable := true |}.

(** The page at load time: a fresh [I18n], nothing requested yet. *)
Definition startup (saved : gmap string string) (b : Browser) : World :=
  {| i18n := constructor; document := sample_page; localStorage := saved;
     requests := []; events := []; browser := b |}.

(** The manager once [lang] is active over the fallback registry. *)
Definition ready (lang d : string) (b : Browser) : World :=
  {| i18n := {| currentLang := Some lang;
                translations := sample_bundle lang d;
                languages := fallback_languages;
                defaultLang := "ar" |};
     document := sample_page;
     localStorage := {[ storageKey := lang ]};
     requests := [GetManifest; GetBundle lang];
     events := [ {| detail_lang := Some lang; detail_dir := JStr d |} ];
     browser := b |}.

(** Only [ar.json] is served; any other bundle is a 404 page. *)
Definition only_ar (c : string) : Fetched JVal :=
  if String.eqb c "ar" then Response true (Some (sample_bundle "ar" "rtl"))
  else Response false None.

(** [en.json] is served, but its [meta.dir] says [rtl]. *)
Definition en_marked_rtl (c : string) : Fetched JVal :=
  if String.eqb c "en" then Response true (Some (sample_bundle "en" "rtl"))
  else only_ar c.

(** [ar.json] is served as the JSON document [{}], without [meta]. *)
Definition ar_without_meta (c : string) : Fetched JVal :=
  if String.eqb c "ar" then Response true (Some (JObj []))
  else Response false None.

(** [ar.json] and [fr.json] are both served. *)
Definition ar_and_fr (c : string) : Fetched JVal :=
  if String.eqb c "fr" then Response true (Some (sample_bundle "fr" "ltr"))
  else only_ar c.

(** ** The page after a switch *)

(** What the three passes of [translatePage] make of one node. *)
Definition translate_node (self : I18n) (el : Element) : Element :=
  translate_title self (translate_placeholder self (translate_text self el)).

(** What [updateLanguageSwitcher] makes of the [#currentLangFlag] image. *)
Definition flag_after (self : I18n) (img : option Img) : option Img :=
  match currentLang self with
  | None => img
  | Some cur =>
      match find_language (languages self) cur, img with
      | Some l, Some _ => Some {| src := flag l; alt := name l |}
      | _, _ => img
      end
  end.




(** ** Content consumers: the ticker and the modals

    The functions of the content script and of class [App] that read the
    active bundle through [i18n.get] and write the page.  Here the page is
    the collection of its nodes by [id], as [document.getElementById] sees
    it; [window.i18n] may be missing. *)

(** What a node displays: the value last assigned to its [textContent], or
    the markup last assigned to its [innerHTML]. *)
Inductive Content : Type :=
  | Text (v : JVal)
  | Markup (html : string).

Record Node : Type := {
  content : Content;
  classList : gset string
}.

Definition set_text (v : JVal) (n : Node) : Node :=
  {| content := Text v; classList := classList n |}.

Definition set_markup (html : string) (n : Node) : Node :=
  {| content := Markup html; classList := classList n |}.

(** [node.classList.add(c)] *)
Definition add_class (c : string) (n : Node) : Node :=
  {| content := content n; classList := {[ c ]} ∪ classList n |}.

(** [node.classList.remove(c)] *)
Definition remove_class (c : string) (n : Node) : Node :=
  {| content := content n; classList := classList n ∖ {[ c ]} |}.

Definition dquote : string := String (Ascii.ascii_of_nat 34) EmptyString.

(** ToString, as a template literal applies it.  A built-in function is
    printed the way V8 prints it. *)
Fixpoint to_string (v : JVal) : string :=
  match v with
  | JUndef => "undefined"
  | JNull => "null"
  | JBool true => "true"
  | JBool false => "false"
  | JNum n => NilZero.string_of_int (Z.to_int n)
  | JStr s => s
  | JArr items =>
      (fix join (l : list JVal) : string :=
         match l with
         | [] => ""
         | x :: rest =>
             let shown := match x with
                          | JUndef | JNull => ""
                          | _ => to_string x
                          end in
             match rest with
             | [] => shown
             | _ :: _ => shown ++ "," ++ join rest
             end
         end) items
  | JObj _ => "[object Object]"
  | JFunc f => "function " ++ f ++ "() { [native code] }"
  | JProto ObjectPrototype => "[object Object]"
  | JProto ArrayPrototype => ""
  end.

(** The elements of a value that has the array methods ([Array.isArray],
    [.map], spreading): an array, or [Array.prototype] itself. *)
Definition array_items (v : JVal) : option (list JVal) :=
  match v with
  | JArr items => Some items
  | JProto ArrayPrototype => Some []
  | _ => None
  end.


(** [s.replace(pattern, replacement)] for a string pattern: the first
    occurrence only. *)
Fixpoint replace_first (pattern replacement s : string) : string :=
  if String.prefix pattern s
  then replacement ++ substring (String.length pattern)
                                (String.length s - String.length pattern) s
  else match s with
       | EmptyString => EmptyString
       | String ch rest => String ch (replace_first pattern replacement rest)
       end.


(** [getProgramData(programKey)] *)
Definition getProgramData (win : option I18n) (programKey : string) : JVal :=
  match win with
  | Some self =>
      if truthy (translations self)
      then get self ("programs.data." ++ programKey)
      else JNull
  | None => JNull
  end.



(** One question of the program modal. *)
Definition question_item (programKey : string) (index : nat) (q : JVal) : string :=
  "<div class=" ++ dquote ++ "q-item" ++ dquote
  ++ " onclick=" ++ dquote ++ "showAnswer('" ++ programKey ++ "', "
  ++ index_key index ++ ")" ++ dquote ++ ">" ++ to_string q ++ "</div>".

(** [openProgram(programKey)] *)
Definition openProgram (win : option I18n) (programKey : string)
    (page : gmap string Node) : Result unit * gmap string Node :=
  let program := getProgramData win programKey in
  if negb (truthy program) then (Ok tt, page)
  else
    let modal := page !! "qModal" in
    let modalTitle := page !! "modalTitle" in
    let questionsContainer := page !! "questionsContainer" in
    match modalTitle, get_prop program "title" with
    | Some titleNode, Ok programTitle =>
        let page1 := <["modalTitle" := set_text programTitle titleNode]> page in
        match get_prop program "questions" with
        | Throw e => (Throw e, page1)
        | Ok questions =>
            match array_items questions, questionsContainer with
            | Some qs, Some container =>
                let page2 :=
                  <["questionsContainer" :=
                      set_markup (String.concat "" (imap (question_item programKey) qs))
                                 container]> page1 in
                match modal with
                | Some m => (Ok tt, <["qModal" := add_class "show" m]> page2)
                | None => (Throw TypeError, page2)
                end
            | _, _ => (Throw TypeError, page1)
            end
        end
    | _, _ => (Throw TypeError, page)
    end.




(** [modal.classList.add('show')] on the node with this [id], if any:
    [openMessagesModal()] and [App.showModal(modalId)]. *)
Definition showModal (modalId : string) (page : gmap string Node)
    : gmap string Node :=
  match page !! modalId with
  | Some modal => <[modalId := add_class "show" modal]> page
  | None => page
  end.

(** [App.hideModal(modalId)] *)
Definition hideModal (modalId : string) (page : gmap string Node)
    : gmap string Node :=
  match page !! modalId with
  | Some modal => <[modalId := remove_class "show" modal]> page
  | None => page
  end.

(** [openMessagesModal()] *)
Definition openMessagesModal (page : gmap string Node) : gmap string Node :=
  showModal "messages-modal" page.

(** [closeReferenceModal()] *)
Definition closeReferenceModal (page : gmap string Node) : gmap string Node :=
  hideModal "referenceModal" page.

(** The paragraph of the reference modal. *)
Definition reference_paragraph (shown : JVal) : string :=
  "<p style=" ++ dquote ++ "margin: 0; padding: 15px 0;" ++ dquote ++ ">"
  ++ to_string shown ++ "</p>".

(** [openReferenceModal(refId)] *)
Definition openReferenceModal (win : option I18n) (refId : string)
    (page : gmap string Node) : gmap string Node :=
  let refName := replace_first "reference-" "" refId in
  match page !! "referenceModal", page !! "referenceModalTitle",
        page !! "referenceModalContent" with
  | Some modal, Some modalTitle, Some modalContent =>
      match win with
      | None => page
      | Some self =>
          let ttl := get self ("references.modals." ++ refName ++ ".title") in
          let body := get self ("references.modals." ++ refName ++ ".content") in
          <["referenceModal" := add_class "show" modal]>
            (<["referenceModalContent" :=
                 set_markup (reference_paragraph
                               (js_or body (JStr "Content not available")))
                            modalContent]>
               (<["referenceModalTitle" :=
                    set_text (js_or ttl (JStr refName)) modalTitle]> page))
      end
  | _, _, _ => page
  end.

(** The Escape key handler of [App.setupModals]: every node that is a
    [.modal-overlay] and shown loses [show]. *)
Definition closeShownModals (page : gmap string Node) : gmap string Node :=
  (fun n =>
     if bool_decide ("modal-overlay" ∈ classList n /\ "show" ∈ classList n)
     then remove_class "show" n else n) <$> page.

(** A bundle with a ticker and one program of two questions and a single
    answer. *)
Definition content_bundle : JVal :=
  JObj [ ("meta", JObj [("lang", JStr "en"); ("dir", JStr "ltr")]);
         ("ticker", JObj [("items", JArr [JStr "one"; JStr "two"])]);
         ("programs",
          JObj [("data",
                 JObj [("safety",
                        JObj [("title", JStr "Safety");
                              ("questions", JArr [JStr "Q1"; JStr "Q2"]);
                              ("answers", JArr [JStr "A1"])])])]) ].

Definition content_manager : I18n :=
  set_currentLang (Some "en") (set_translations content_bundle constructor).

Definition plain_node : Node := {| content := Markup ""; classList := ∅ |}.

Definition overlay_node : Node :=
  {| content := Markup ""; classList := {[ "modal-overlay" ]} |}.

(** A page with the ticker track and the nodes of the three modals. *)
Definition modal_page : gmap string Node :=
  list_to_map
    [ ("tickerTrack", plain_node);
      ("qModal", add_class "show" overlay_node);
      ("modalTitle", plain_node);
      ("questionsContainer", plain_node);
      ("aModal", overlay_node);
      ("answerTitle", plain_node);
      ("answerContent", plain_node);
      ("referenceModal", overlay_node);
      ("referenceModalTitle", plain_node);
      ("referenceModalContent", plain_node) ].

(** The [keydown] listener of [App.setupModals]. *)
Definition modalsKeydown (key : string) (page : gmap string Node)
    : gmap string Node :=
  if String.eqb key "Escape" then closeShownModals page else page.

(** ** Utilities: cookies *)

(** [s.split(sep)] for a non-empty string separator.  [skip] counts the
    characters of a separator just matched that are still to be passed
    over; the head of the result is the part being read. *)
Fixpoint split_from (sep : string) (skip : nat) (s : string) : list string :=
  match s with
  | EmptyString => [EmptyString]
  | String ch rest =>
      match skip with
      | S k => split_from sep k rest
      | O =>
          if String.prefix sep s
          then EmptyString :: split_from sep (String.length sep - 1) rest
          else match split_from sep 0 rest with
               | part :: parts => String ch part :: parts
               | [] => [String ch EmptyString]
               end
      end
  end.

Definition split_by (sep s : string) : list string := split_from sep 0 s.

(** [Utils.getCookie(name)] over the jar [document.cookie]. *)
Definition getCookie (name cookie : string) : option string :=
  let value := "; " ++ cookie in
  let parts := split_by ("; " ++ name ++ "=") value in
  if Nat.eqb (length parts) 2
  then match last parts with
       | Some part => head (split ";" part)
       | None => None
       end
  else None.

(** The character [c] occurs in [s]. *)
Fixpoint occurs (c : ascii) (s : string) : bool :=
  match s with
  | EmptyString => false
  | String ch rest => Ascii.eqb ch c || occurs c rest
  end.

(** A cookie jar as [document.cookie] presents it: [name=value] pairs
    joined by ["; "]. *)
Definition render_jar (jar : list (string * string)) : string :=
  String.concat "; " (map (fun c => fst c ++ "=" ++ snd c) jar).

(** Names and values are free of [;], names of [=]. *)
Definition well_formed_cookie (c : string * string) : Prop :=
  occurs ";" (fst c) = false /\ occurs "=" (fst c) = false
  /\ occurs ";" (snd c) = false.

(** The cookies of the jar called [name]. *)
Definition cookies_named (name : string) (jar : list (string * string))
    : list (string * string) :=
  List.filter (fun c => String.eqb (fst c) name) jar.

(** The jar with ["; "] in front of every cookie: what [getCookie] splits,
    when the jar is not empty. *)
Fixpoint jar_value (jar : list (string * string)) : string :=
  match jar with
  | [] => ""
  | c :: rest => "; " ++ fst c ++ "=" ++ snd c ++ jar_value rest
  end.

(** The parts [getCookie] obtains: the one being read, and those closed
    by a later match. *)
Fixpoint cookie_parts (name : string) (jar : list (string * string))
    : string * list string :=
  match jar with
  | [] => ("", [])
  | c :: rest =>
      let (x, xs) := cookie_parts name rest in
      if String.eqb (fst c) name
      then ("", (snd c ++ x) :: xs)
      else ("; " ++ fst c ++ "=" ++ snd c ++ x, xs)
  end.


(** ** Utilities: debounce and throttle

    The closures returned by [Utils.debounce(func, wait)] and
    [Utils.throttle(func, limit)], as machines driven by two kinds of
    event: the closure is invoked, or the time of a timer arrives.  A
    timer that was cleared does not fire.  The delays themselves play no
    part: the statements hold for every order of events. *)

Inductive Tick (A : Type) : Type :=
  | Invoke (args : A)
  | Fire (timer : nat).

Arguments Invoke {A} args.
Arguments Fire {A} timer.

(** The state a [debounce] closure captures: the timers that
    [setTimeout] has set and that are still to fire, each with the
    arguments its [later] closes over; the variable [timeout]; and, for
    the statements, the calls of [func] made so far. *)
Record Debounce (A : Type) : Type := {
  debounce_next : nat;
  debounce_pending : gmap nat A;
  debounce_timeout : option nat;
  debounce_calls : list A
}.

Arguments debounce_next {A} _.
Arguments debounce_pending {A} _.
Arguments debounce_timeout {A} _.
Arguments debounce_calls {A} _.

(** [Utils.debounce(func, wait)] *)
Definition debounce {A} : Debounce A :=
  {| debounce_next := 0; debounce_pending := ∅;
     debounce_timeout := None; debounce_calls := [] |}.

(** [clearTimeout(timeout)] *)
Definition clearTimeout {A} (timeout : option nat) (pending : gmap nat A)
    : gmap nat A :=
  match timeout with
  | Some id => delete id pending
  | None => pending
  end.

Definition debounce_step {A} (st : Debounce A) (ev : Tick A) : Debounce A :=
  match ev with
  | Invoke args =>
      (* executedFunction(...args) *)
      let cleared := clearTimeout (debounce_timeout st) (debounce_pending st) in
      {| debounce_next := S (debounce_next st);
         debounce_pending := <[debounce_next st := args]> cleared;
         debounce_timeout := Some (debounce_next st);
         debounce_calls := debounce_calls st |}
  | Fire id =>
      match debounce_pending st !! id with
      | None => st
      | Some args =>
          (* later() *)
          let fired := delete id (debounce_pending st) in
          {| debounce_next := debounce_next st;
             debounce_pending := clearTimeout (debounce_timeout st) fired;
             debounce_timeout := debounce_timeout st;
             debounce_calls := (debounce_calls st ++ [args])%list |}
      end
  end.

Definition debounce_run {A} (trace : list (Tick A)) : Debounce A :=
  fold_left debounce_step trace debounce.

(** The state a [throttle] closure captures: [inThrottle], the reset
    timers still to fire, and the calls of [func] made so far. *)
Record Throttle (A : Type) : Type := {
  inThrottle : bool;
  throttle_next : nat;
  throttle_pending : gset nat;
  throttle_calls : list A
}.

Arguments inThrottle {A} _.
Arguments throttle_next {A} _.
Arguments throttle_pending {A} _.
Arguments throttle_calls {A} _.

(** [Utils.throttle(func, limit)] *)
Definition throttle {A} : Throttle A :=
  {| inThrottle := false; throttle_next := 0;
     throttle_pending := ∅; throttle_calls := [] |}.

(** [throws args] tells whether [func] throws on [args]; the exception
    then leaves the closure before [inThrottle] is set. *)
Definition throttle_step {A} (throws : A -> bool) (st : Throttle A) (ev : Tick A)
    : Throttle A :=
  match ev with
  | Invoke args =>
      if inThrottle st then st
      else if throws args
      then {| inThrottle := false; throttle_next := throttle_next st;
              throttle_pending := throttle_pending st;
              throttle_calls := (throttle_calls st ++ [args])%list |}
      else {| inThrottle := true; throttle_next := S (throttle_next st);
              throttle_pending := {[ throttle_next st ]} ∪ throttle_pending st;
              throttle_calls := (throttle_calls st ++ [args])%list |}
  | Fire id =>
      if bool_decide (id ∈ throttle_pending st)
      then {| inThrottle := false; throttle_next := throttle_next st;
              throttle_pending := throttle_pending st ∖ {[ id ]};
              throttle_calls := throttle_calls st |}
      else st
  end.

Definition throttle_run {A} (throws : A -> bool) (trace : list (Tick A))
    : Throttle A :=
  fold_left (throttle_step throws) trace throttle.

(** The number of timer expiries in a trace. *)
Definition fires {A} (trace : list (Tick A)) : nat :=
  length (List.filter (fun ev => match ev with Fire _ => true | Invoke _ => false end)
                      trace).

(** Only the timer named by [timeout] can be pending. *)
Definition debounce_inv {A} (st : Debounce A) : Prop :=
  forall id, is_Some (debounce_pending st !! id) -> debounce_timeout st = Some id.

(** [func] is not called while a reset timer is pending, and there is
    never more than one. *)
Definition throttle_inv {A} (st : Throttle A) : Prop :=
  (inThrottle st = false /\ throttle_pending st = ∅)
  \/ (inThrottle st = true /\ exists id, throttle_pending st = {[ id ]}).

(** The calls of [func] that returned. *)
Definition returned {A} (throws : A -> bool) (st : Throttle A) : list A :=
  List.filter (fun a => negb (throws a)) (throttle_calls st).
(** ** Stepping through a computation *)

Lemma bind_ok {A B} (m : M A) (k : A -> M B) (w w' : World) (a : A) :
  m w = Some (Ok a, w') -> bind m k w = k a w'.
Proof. unfold bind; now intros ->. Qed.

Lemma bind_throw {A B} (m : M A) (k : A -> M B) (w w' : World) (e : Exn) :
  m w = Some (Throw e, w') -> bind m k w = Some (Throw e, w').
Proof. unfold bind; now intros ->. Qed.

Lemma try_catch_ok {A} (m : M A) (h : Exn -> M A) (w w' : World) (a : A) :
  m w = Some (Ok a, w') -> try_catch m h w = Some (Ok a, w').
Proof. unfold try_catch; now intros ->. Qed.

Lemma try_catch_throw {A} (m : M A) (h : Exn -> M A) (w w' : World) (e : Exn) :
  m w = Some (Throw e, w') -> try_catch m h w = h e w'.
Proof. unfold try_catch; now intros ->. Qed.

(** Run the first statement of a sequence when it is a primitive that
    cannot throw. *)
Ltac mstep := erewrite bind_ok by reflexivity; cbv beta.

(** Settle a conjunction of closed equations by running the model. *)
Ltac evaluate :=
  repeat match goal with |- _ /\ _ => split end; vm_compute; reflexivity.

(** ** Frame lemmas: what each method leaves alone *)

Section Frames.

Variable w : World.

Lemma translatePage_spec :
  exists w', translatePage w = Some (Ok tt, w')
    /\ i18n w' = i18n w /\ localStorage w' = localStorage w
    /\ requests w' = requests w /\ events w' = events w
    /\ browser w' = browser w.
Proof. eexists; split; [reflexivity | repeat split]. Qed.

Lemma updateLanguageSwitcher_spec :
  exists w', updateLanguageSwitcher w = Some (Ok tt, w')
    /\ i18n w' = i18n w /\ localStorage w' = localStorage w
    /\ requests w' = requests w /\ events w' = events w
    /\ browser w' = browser w.
Proof.
  unfold updateLanguageSwitcher, bind, gets; simpl.
  destruct (currentLang (i18n w)) as [cur|]; [|eexists; split; [reflexivity | repeat split]].
  destruct (find_language (languages (i18n w)) cur);
    [|eexists; split; [reflexivity | repeat split]].
  destruct (currentLangFlag (document w));
    eexists; (split; [reflexivity | repeat split]).
Qed.

Lemma setupLanguageSwitcher_spec :
  exists w', setupLanguageSwitcher w = Some (Ok tt, w')
    /\ i18n w' = i18n w /\ localStorage w' = localStorage w
    /\ requests w' = requests w /\ events w' = events w
    /\ browser w' = browser w.
Proof.
  unfold setupLanguageSwitcher, bind, gets; simpl.
  destruct (lang_dropdown (document w));
    eexists; (split; [reflexivity | repeat split]).
Qed.

Lemma saveLanguage_spec (c : string) :
  exists w', saveLanguage c w = Some (Ok tt, w')
    /\ i18n w' = i18n w /\ requests w' = requests w
    /\ events w' = events w /\ browser w' = browser w
    /\ localStorage w' =
         (if storage_writable (browser w)
          then <[storageKey := c]> (localStorage w) else localStorage w).
Proof.
  unfold saveLanguage, try_catch, localStorage_setItem.
  destruct (storage_writable (browser w));
    eexists; (split; [reflexivity | repeat split]).
Qed.

Lemma getSavedLanguage_spec :
  getSavedLanguage w =
    Some (Ok (if storage_readable (browser w)
              then localStorage w !! storageKey else None), w).
Proof.
  unfold getSavedLanguage, try_catch, localStorage_getItem.
  destruct (storage_readable (browser w)); reflexivity.
Qed.

End Frames.

(** [meta.lang] and [meta.dir] are read off the same [meta]: either both
    reads throw or neither does. *)
Lemma get_prop_total_on (meta : JVal) (k k' : string) (v : JVal) :
  get_prop meta k = Ok v -> exists v', get_prop meta k' = Ok v'.
Proof. destruct meta; simpl; intros H; try discriminate; eauto. Qed.

Lemma get_prop_throws_on (meta : JVal) (k k' : string) (e : Exn) :
  get_prop meta k = Throw e -> get_prop meta k' = Throw e.
Proof. destruct meta; simpl; intros H; try discriminate; auto. Qed.

Lemma applyLanguage_throws (w : World) (e : Exn) :
  meta_dir (translations (i18n w)) = Throw e ->
  applyLanguage w = Some (Throw e, w).
Proof.
  unfold meta_dir, applyLanguage. mstep.
  destruct (get_prop (translations (i18n w)) "meta") as [meta|e'] eqn:Hmeta.
  - intros Hdir. mstep.
    rewrite (get_prop_throws_on meta "dir" "lang" e Hdir). reflexivity.
  - intros [= ->]. reflexivity.
Qed.

Lemma applyLanguage_ok (w : World) (d : JVal) :
  meta_dir (translations (i18n w)) = Ok d ->
  exists w', applyLanguage w = Some (Ok tt, w')
    /\ i18n w' = i18n w /\ localStorage w' = localStorage w
    /\ requests w' = requests w /\ browser w' = browser w
    /\ events w' = (events w ++ [ {| detail_lang := currentLang (i18n w);
                                    detail_dir := d |} ])%list.
Proof.
  unfold meta_dir, applyLanguage. mstep.
  destruct (get_prop (translations (i18n w)) "meta") as [meta|e'] eqn:Hmeta;
    [|discriminate].
  intros Hdir.
  destruct (get_prop_total_on meta "dir" "lang" d Hdir) as [lang Hlang].
  mstep. rewrite Hlang, Hdir. do 4 mstep.
  set (w1 := with_document (set_html_dir d) (with_document (set_html_lang lang) w)).
  destruct (translatePage_spec w1) as (w2 & E2 & I2 & L2 & R2 & V2 & B2).
  rewrite (bind_ok _ _ _ _ _ E2).
  destruct (updateLanguageSwitcher_spec w2) as (w3 & E3 & I3 & L3 & R3 & V3 & B3).
  rewrite (bind_ok _ _ _ _ _ E3). do 2 mstep.
  eexists; split; [reflexivity|]. simpl.
  rewrite I3, I2, L3, L2, R3, R2, B3, B2, V3, V2. repeat split.
Qed.

Lemma setLanguage_try_attempt (c : string) (w : World) :
  exists r w', setLanguage_try c w = Some (r, w') /\ Attempt c w r w'.
Proof.
  unfold setLanguage_try.
  destruct (next_bundle w c) as [|ok body] eqn:Hnext.
  - (* fetch rejects *)
    exists (Throw NetworkError), (logged c w). split.
    + apply bind_throw. unfold fetch. fold (next_bundle w c). now rewrite Hnext.
    + constructor. congruence.
  - assert (Hfetch : fetch (GetBundle c) (fun b n => bundle_response b n c) w
                     = Some (Ok (ok, body), logged c w)).
    { unfold fetch. fold (next_bundle w c). now rewrite Hnext. }
    rewrite (bind_ok _ _ _ _ _ Hfetch). cbv beta.
    destruct ok; cbn [fst negb].
    2:{ eexists _, _. split; [reflexivity|]. constructor. congruence. }
    destruct body as [body|].
    2:{ eexists _, _. split; [reflexivity|]. constructor. congruence. }
    mstep. do 2 mstep. fold (swapped c body (logged c w)).
    destruct (meta_dir body) as [d|e] eqn:Hdir.
    + destruct (applyLanguage_ok (swapped c body (logged c w)) d Hdir)
        as (w2 & E2 & I2 & L2 & R2 & B2 & V2).
      rewrite (bind_ok _ _ _ _ _ E2).
      destruct (saveLanguage_spec w2 c) as (w3 & E3 & I3 & R3 & V3 & B3 & L3).
      rewrite (bind_ok _ _ _ _ _ E3).
      exists (Ok true), w3. split; [reflexivity|].
      apply AttemptApplied with (body := body) (d := d); try assumption.
      * rewrite I3, I2. reflexivity.
      * rewrite R3, R2. reflexivity.
      * rewrite B3, B2. reflexivity.
      * rewrite V3, V2. reflexivity.
      * rewrite L3, B2, L2. reflexivity.
    + exists (Throw e), (swapped c body (logged c w)). split.
      * apply bind_throw. now apply applyLanguage_throws.
      * now apply AttemptMalformed.
Qed.

(** A failed attempt changes neither the registry nor the default. *)
Lemma Attempt_frame (c : string) (w w' : World) (r : Result bool) :
  Attempt c w r w' ->
  languages (i18n w') = languages (i18n w)
  /\ defaultLang (i18n w') = defaultLang (i18n w)
  /\ browser w' = browser w
  /\ requests w' = (requests w ++ [GetBundle c])%list.
Proof.
  destruct 1 as [e H|body e H1 H2|body d w' H1 H2 HI HR HB HE HL];
    repeat split; try reflexivity; try assumption.
  - now rewrite HI.
  - now rewrite HI.
Qed.

Lemma setLanguage_fuel_unfold (n : nat) (c : string) (w : World) :
  setLanguage_fuel (S n) c w =
    match setLanguage_try c w with
    | Some (Throw _, w1) =>
        if negb (String.eqb c (defaultLang (i18n w1)))
        then setLanguage_fuel n (defaultLang (i18n w1)) w1
        else Some (Ok false, w1)
    | r => r
    end.
Proof.
  cbn [setLanguage_fuel]. unfold try_catch.
  destruct (setLanguage_try c w) as [[[b|e] w1]|]; try reflexivity.
  mstep. now destruct (negb (c =? defaultLang (i18n w1))%string).
Qed.

(** Every call returns, with at most one recursive call. *)
Lemma setLanguage_run (n : nat) (c : string) (w : World) :
  exists b w', setLanguage_fuel (S (S n)) c w = Some (Ok b, w')
               /\ SetLanguage c w b w'.
Proof.
  rewrite setLanguage_fuel_unfold.
  destruct (setLanguage_try_attempt c w) as (r & w1 & E & HA). rewrite E.
  destruct (Attempt_frame _ _ _ _ HA) as (_ & HD & _ & _).
  destruct r as [b|e].
  - inversion HA; subst. exists true, w1. split; [reflexivity|].
    now apply SetLanguage_direct.
  - rewrite HD.
    destruct (String.eqb_spec c (defaultLang (i18n w))) as [Heq|Hne]; simpl negb; cbv iota.
    + exists false, w1. split; [reflexivity|].
      now apply SetLanguage_default_failed with (e := e).
    + rewrite setLanguage_fuel_unfold.
      destruct (setLanguage_try_attempt (defaultLang (i18n w)) w1)
        as (r2 & w2 & E2 & HA2). rewrite E2.
      destruct (Attempt_frame _ _ _ _ HA2) as (_ & HD2 & _ & _).
      destruct r2 as [b2|e2].
      * exists b2, w2. split; [reflexivity|].
        now apply SetLanguage_fallback with (e := e) (w1 := w1) (r := Ok b2).
      * rewrite HD2, HD, String.eqb_refl. simpl negb; cbv iota.
        exists false, w2. split; [reflexivity|].
        now apply SetLanguage_fallback with (e := e) (w1 := w1) (r := Throw e2).
Qed.

Lemma setLanguage_enough_fuel (n : nat) (c : string) (w : World) :
  setLanguage_fuel (S (S n)) c w = setLanguage c w.
Proof.
  destruct (setLanguage_run n c w) as (b & w' & E & H).
  destruct (setLanguage_run 0 c w) as (b0 & w0 & E0 & H0).
  unfold setLanguage. rewrite E, E0.
  revert E E0. rewrite !setLanguage_fuel_unfold.
  destruct (setLanguage_try c w) as [[[b1|e1] w1]|]; try congruence.
  destruct (negb (c =? defaultLang (i18n w1))%string); [|congruence].
  rewrite !setLanguage_fuel_unfold.
  destruct (setLanguage_try (defaultLang (i18n w1)) w1) as [[[b2|e2] w2]|];
    try congruence.
  destruct (negb (defaultLang (i18n w1) =? defaultLang (i18n w2))%string);
    [|congruence].
  simpl. discriminate.
Qed.

Lemma setLanguage_inv (c : string) (w w' : World) (r : Result bool) :
  setLanguage c w = Some (r, w') ->
  exists b, r = Ok b /\ SetLanguage c w b w'.
Proof.
  unfold setLanguage.
  destruct (setLanguage_run 0 c w) as (b & w0 & E & H).
  rewrite E. intros [= <- <-]. eauto.
Qed.

(** ** Consequences of the run relation *)

Lemma Attempt_kind (c : string) (w w1 w2 : World) (b : bool) (e : Exn) :
  Attempt c w (Ok b) w1 -> Attempt c w (Throw e) w2 -> False.
Proof.
  intros H1 H2. inversion H1 as [| |body d ? Hn Hd]; subst.
  inversion H2 as [? Hno|body' ? Hn' Hd'|]; subst.
  - now apply (Hno body).
  - congruence.
Qed.

Lemma load_fails_Attempt (c : string) (w : World) :
  load_fails c w <-> exists e w1, Attempt c w (Throw e) w1.
Proof.
  destruct (setLanguage_try_attempt c w) as (r & w1 & E & HA). split.
  - intros (e & w2 & E2). rewrite E in E2. injection E2 as -> ->. eauto.
  - intros (e & w2 & HA2). destruct r as [b|e'].
    + destruct (Attempt_kind _ _ _ _ _ _ HA HA2).
    + exists e', w1. exact E.
Qed.

(** A failed attempt fires no event, saves nothing and leaves the page. *)
Lemma Attempt_throw_frame (c : string) (w w1 : World) (e : Exn) :
  Attempt c w (Throw e) w1 ->
  events w1 = events w /\ localStorage w1 = localStorage w
  /\ document w1 = document w.
Proof. inversion 1; subst; repeat split. Qed.

(** A successful call ends with one applied attempt, for the requested
    language or, after a failed first attempt, for the default one. *)
Lemma SetLanguage_success (c : string) (w w' : World) :
  SetLanguage c w true w' ->
  Attempt c w (Ok true) w'
  \/ exists e w1, c <> defaultLang (i18n w) /\ Attempt c w (Throw e) w1
                  /\ Attempt (defaultLang (i18n w)) w1 (Ok true) w'.
Proof.
  inversion 1 as [? HA| |e w1 r ? HA Hne HA2 Hr]; subst.
  - now left.
  - right. destruct r as [b|e2]; [|discriminate]. subst b. eauto.
Qed.

Lemma strict_eq_or_ltr (d : JVal) :
  strict_eq_str (js_or d (JStr "ltr")) "rtl" = strict_eq_str d "rtl".
Proof.
  unfold js_or. destruct d as [| |b|n|s|items|fields|f|p]; simpl; try reflexivity.
  - now destruct b.
  - now destruct (Z.eqb n 0).
  - now destruct (String.eqb_spec s ""); subst.
Qed.

(** [isRTL()] is a view of the active bundle's [meta.dir]. *)
Lemma isRTL_meta_dir (self : I18n) (d : JVal) :
  meta_dir (translations self) = Ok d ->
  isRTL self = Ok (strict_eq_str d "rtl").
Proof.
  unfold meta_dir, isRTL, getDirection.
  destruct (get_prop (translations self) "meta") as [meta|] eqn:Hm; [|discriminate].
  intros Hd. assert (get_prop_opt meta "dir" = Ok d) as ->.
  { destruct meta; simpl in *; congruence. }
  now rewrite strict_eq_or_ltr.
Qed.

Lemma Attempt_applied_state (c : string) (w w' : World) :
  Attempt c w (Ok true) w' ->
  exists body d,
    next_bundle w c = Response true (Some body)
    /\ meta_dir body = Ok d
    /\ translations (i18n w') = body
    /\ currentLang (i18n w') = Some c
    /\ events w' = (events w ++ [ {| detail_lang := Some c; detail_dir := d |} ])%list.
Proof.
  inversion 1 as [| |body d ? Hn Hd HI HR HB HE HL]; subst.
  exists body, d. rewrite HI. repeat split; assumption.
Qed.

(** ** The claims *)

(** C1, counterexample.  Over the fallback registry with only [ar.json]
    on the server, [setLanguage("en")] reports success for the supported
    code [en], yet the active language is [ar]; and where [en.json]
    carries [meta.dir = "rtl"], [isRTL()] is true although the registry
    records [ltr] for [en]. *)
Lemma setLanguage_success_other_language :
  registered (i18n (ready "ar" "rtl" (sample_browser only_ar))) "en"
  /\ outcome (setLanguage "en") (ready "ar" "rtl" (sample_browser only_ar))
     = Some (Ok true)
  /\ getCurrentLang
       (i18n (after (setLanguage "en") (ready "ar" "rtl" (sample_browser only_ar))))
     = Some "ar"
  /\ find_language fallback_languages "en"
     = Some {| code := "en"; name := "English";
               flag := "https://flagcdn.com/w80/gb.png"; dir := "ltr" |}
  /\ outcome (setLanguage "en") (ready "ar" "rtl" (sample_browser en_marked_rtl))
     = Some (Ok true)
  /\ getCurrentLang
       (i18n (after (setLanguage "en") (ready "ar" "rtl" (sample_browser en_marked_rtl))))
     = Some "en"
  /\ isRTL
       (i18n (after (setLanguage "en") (ready "ar" "rtl" (sample_browser en_marked_rtl))))
     = Ok true.
Proof.
  split.
  - eexists. split; [right; left; reflexivity | reflexivity].
  - evaluate.
Qed.

(** C1, amended.  When [setLanguage(c)] succeeds and it is [c]'s own
    bundle that loaded (no fallback), [getCurrentLang()] is [c] and
    [isRTL()] is true exactly when the loaded bundle's [meta.dir] is
    ["rtl"]; that is the direction of [c]'s descriptor whenever the
    bundle's [meta.dir] is the direction the registry records for [c]. *)
Theorem setLanguage_own_bundle_active (c : string) (w w' : World) :
  setLanguage c w = Some (Ok true, w') ->
  ~ load_fails c w ->
  exists body d,
    next_bundle w c = Response true (Some body)
    /\ meta_dir body = Ok d
    /\ translations (i18n w') = body
    /\ getCurrentLang (i18n w') = Some c
    /\ isRTL (i18n w') = Ok (strict_eq_str d "rtl")
    /\ forall l, In l (getLanguages (i18n w')) -> code l = c ->
                 d = JStr (dir l) ->
                 isRTL (i18n w') = Ok (String.eqb (dir l) "rtl").
Proof.
  intros Hrun Hloads.
  destruct (setLanguage_inv _ _ _ _ Hrun) as (b & [= <-] & HS).
  destruct (SetLanguage_success _ _ _ HS) as [HA|(e & w1 & _ & HA1 & _)].
  - destruct (Attempt_applied_state _ _ _ HA) as (body & d & Hn & Hd & Ht & Hc & _).
    exists body, d. repeat split; try assumption.
    + apply isRTL_meta_dir. now rewrite Ht.
    + intros l _ _ ->. rewrite (isRTL_meta_dir _ (JStr (dir l))); [reflexivity|].
      now rewrite Ht.
  - exfalso. apply Hloads. apply load_fails_Attempt. eauto.
Qed.

Lemma setLanguage_own_bundle_active_witness :
  setLanguage "ar" (ready "en" "ltr" (sample_browser only_ar))
    = Some (Ok true, after (setLanguage "ar") (ready "en" "ltr" (sample_browser only_ar)))
  /\ ~ load_fails "ar" (ready "en" "ltr" (sample_browser only_ar))
  /\ exists body d,
       next_bundle (ready "en" "ltr" (sample_browser only_ar)) "ar"
         = Response true (Some body)
       /\ meta_dir body = Ok d
       /\ translations (i18n (after (setLanguage "ar")
                                (ready "en" "ltr" (sample_browser only_ar)))) = body
       /\ getCurrentLang (i18n (after (setLanguage "ar")
                                  (ready "en" "ltr" (sample_browser only_ar))))
          = Some "ar"
       /\ isRTL (i18n (after (setLanguage "ar")
                         (ready "en" "ltr" (sample_browser only_ar))))
          = Ok (strict_eq_str d "rtl")
       /\ forall l,
            In l (getLanguages (i18n (after (setLanguage "ar")
                                        (ready "en" "ltr" (sample_browser only_ar))))) ->
            code l = "ar" -> d = JStr (dir l) ->
            isRTL (i18n (after (setLanguage "ar")
                           (ready "en" "ltr" (sample_browser only_ar))))
              = Ok (String.eqb (dir l) "rtl").
Proof.
  assert (Hrun : setLanguage "ar" (ready "en" "ltr" (sample_browser only_ar))
    = Some (Ok true, after (setLanguage "ar") (ready "en" "ltr" (sample_browser only_ar))))
    by (vm_compute; reflexivity).
  assert (Hloads : ~ load_fails "ar" (ready "en" "ltr" (sample_browser only_ar)))
    by (intros (e & w1 & H); vm_compute in H; discriminate).
  split; [exact Hrun|]. split; [exact Hloads|].
  exact (setLanguage_own_bundle_active "ar" _ _ Hrun Hloads).
Defined.

(** C2.  When the bundle of a language other than the default fails to
    load, [setLanguage] returns after exactly one further request, made for
    the default language; and when that request delivers a JSON bundle, the
    default language is the active one afterwards. *)
Theorem setLanguage_falls_back_once (c : string) (w : World) :
  c <> defaultLang (i18n w) ->
  load_fails c w ->
  exists b w',
    setLanguage c w = Some (Ok b, w')
    /\ requests w' =
         (requests w ++ [GetBundle c; GetBundle (defaultLang (i18n w))])%list
    /\ defaultLang (i18n w') = defaultLang (i18n w)
    /\ forall body,
         bundle_response (browser w) (S (length (requests w))) (defaultLang (i18n w))
           = Response true (Some body) ->
         getCurrentLang (i18n w') = Some (defaultLang (i18n w)).
Proof.
  intros Hne Hfail.
  apply load_fails_Attempt in Hfail as (e0 & w0 & HA0).
  destruct (setLanguage_run 0 c w) as (b & w' & E & HS).
  exists b, w'. split; [exact E|].
  inversion HS as [? HA|e w1 HA Heq|e w1 r ? HA _ HA2 Hr]; subst.
  - destruct (Attempt_kind _ _ _ _ _ _ HA HA0).
  - contradiction.
  - destruct (Attempt_frame _ _ _ _ HA) as (_ & D1 & B1 & R1).
    destruct (Attempt_frame _ _ _ _ HA2) as (_ & D2 & B2 & R2).
    split; [|split].
    + rewrite R2, R1, <- app_assoc. reflexivity.
    + now rewrite D2.
    + intros body Hbody.
      assert (Hnext : next_bundle w1 (defaultLang (i18n w)) = Response true (Some body)).
      { unfold next_bundle. rewrite B1, R1, length_app, Nat.add_comm. exact Hbody. }
      inversion HA2 as [? Hno|body' ? Hn' Hd'|body' d ? Hn' Hd' HI]; subst.
      * destruct (Hno body Hnext).
      * reflexivity.
      * unfold getCurrentLang. rewrite HI. reflexivity.
Qed.

Lemma setLanguage_falls_back_once_witness :
  "fr" <> defaultLang (i18n (startup {[ storageKey := "fr" ]} (sample_browser only_ar)))
  /\ load_fails "fr" (startup {[ storageKey := "fr" ]} (sample_browser only_ar))
  /\ exists b w',
       setLanguage "fr" (startup {[ storageKey := "fr" ]} (sample_browser only_ar))
         = Some (Ok b, w')
       /\ requests w' = [GetBundle "fr"; GetBundle "ar"]
       /\ defaultLang (i18n w') = "ar"
       /\ forall body,
            only_ar "ar" = Response true (Some body) ->
            getCurrentLang (i18n w') = Some "ar".
Proof.
  assert (H1 : "fr" <> defaultLang
                 (i18n (startup {[ storageKey := "fr" ]} (sample_browser only_ar))))
    by discriminate.
  assert (H2 : load_fails "fr"
                 (startup {[ storageKey := "fr" ]} (sample_browser only_ar)))
    by (eexists _, _; vm_compute; reflexivity).
  split; [exact H1|]. split; [exact H2|].
  exact (setLanguage_falls_back_once "fr" _ H1 H2).
Defined.

(** Scenario of C2: the saved preference is [fr], [fr.json] cannot be
    fetched, [ar] is the default and loads. *)
Example init_saved_fr_unreachable :
  getCurrentLang
    (i18n (after init (startup {[ storageKey := "fr" ]} (sample_browser only_ar))))
  = Some "ar".
Proof. vm_compute; reflexivity. Qed.

(** When the default language's bundle is not delivered, the call fails
    and the manager keeps the language and the bundle it had. *)
Lemma setLanguage_default_unavailable (w : World) :
  (forall body,
     next_bundle w (defaultLang (i18n w)) <> Response true (Some body)) ->
  setLanguage (defaultLang (i18n w)) w
    = Some (Ok false, logged (defaultLang (i18n w)) w).
Proof.
  intros Hno.
  destruct (setLanguage_run 0 (defaultLang (i18n w)) w) as (b & w' & E & HS).
  unfold setLanguage. rewrite E.
  inversion HS as [? HA|e w1 HA Heq|e w1 r ? HA Hne HA2 Hr]; subst.
  - inversion HA as [| |body d ? Hn]; subst. destruct (Hno body Hn).
  - inversion HA as [? _|body ? Hn|]; subst; [reflexivity|].
    destruct (Hno body Hn).
  - contradiction.
Qed.

(** When it is delivered but [applyLanguage] throws on its [meta], the
    call fails as well, with the delivered bundle swapped in. *)
Lemma setLanguage_default_malformed (w : World) (body : JVal) (e : Exn) :
  next_bundle w (defaultLang (i18n w)) = Response true (Some body) ->
  meta_dir body = Throw e ->
  setLanguage (defaultLang (i18n w)) w
    = Some (Ok false,
            swapped (defaultLang (i18n w)) body (logged (defaultLang (i18n w)) w)).
Proof.
  intros Hn Hd.
  destruct (setLanguage_run 0 (defaultLang (i18n w)) w) as (b & w' & E & HS).
  unfold setLanguage. rewrite E.
  inversion HS as [? HA|e1 w1 HA Heq|e1 w1 r ? HA Hne HA2 Hr]; subst.
  - inversion HA as [| |body' d ? Hn' Hd']; subst. congruence.
  - inversion HA as [? Hno|body' ? Hn' Hd'|]; subst.
    + destruct (Hno body Hn).
    + congruence.
  - contradiction.
Qed.

(** C3, failing input.  [en] is active; [ar.json], the default language's
    bundle, arrives as the JSON document [{}].  [setLanguage("ar")] returns
    [false], yet [currentLang] is now [ar] and the active bundle is [{}]:
    the swap is made before [applyLanguage] throws on the missing [meta]. *)
Lemma setLanguage_default_malformed_swaps :
  getCurrentLang (i18n (ready "en" "ltr" (sample_browser ar_without_meta)))
    = Some "en"
  /\ outcome (setLanguage "ar") (ready "en" "ltr" (sample_browser ar_without_meta))
     = Some (Ok false)
  /\ getCurrentLang
       (i18n (after (setLanguage "ar")
                (ready "en" "ltr" (sample_browser ar_without_meta))))
     = Some "ar"
  /\ translations
       (i18n (after (setLanguage "ar")
                (ready "en" "ltr" (sample_browser ar_without_meta))))
     = JObj []
  /\ t (i18n (after (setLanguage "ar")
                (ready "en" "ltr" (sample_browser ar_without_meta)))) "a.b.c"
     = JStr "a.b.c".
Proof. evaluate. Qed.

(** C8.  A call of [setLanguage] that returns [true] dispatches exactly one
    [languageChanged] event; its [lang] is the active language and its
    [dir] the active bundle's [meta.dir]. *)
Theorem setLanguage_dispatches_once (c : string) (w w' : World) :
  setLanguage c w = Some (Ok true, w') ->
  exists ev,
    events w' = (events w ++ [ev])%list
    /\ detail_lang ev = getCurrentLang (i18n w')
    /\ meta_dir (translations (i18n w')) = Ok (detail_dir ev).
Proof.
  intros Hrun.
  destruct (setLanguage_inv _ _ _ _ Hrun) as (b & [= <-] & HS).
  destruct (SetLanguage_success _ _ _ HS) as [HA|(e & w1 & _ & HA1 & HA2)].
  - destruct (Attempt_applied_state _ _ _ HA) as (body & d & _ & Hd & Ht & Hc & He).
    eexists. split; [exact He|]. simpl. rewrite Ht. now split.
  - destruct (Attempt_applied_state _ _ _ HA2) as (body & d & _ & Hd & Ht & Hc & He).
    destruct (Attempt_throw_frame _ _ _ _ HA1) as (V1 & _ & _).
    eexists. split; [rewrite He, V1; reflexivity|]. simpl. rewrite Ht. now split.
Qed.

Lemma setLanguage_dispatches_once_witness :
  setLanguage "en" (ready "ar" "rtl" (sample_browser only_ar))
    = Some (Ok true, after (setLanguage "en") (ready "ar" "rtl" (sample_browser only_ar)))
  /\ exists ev,
       events (after (setLanguage "en") (ready "ar" "rtl" (sample_browser only_ar)))
         = ([ {| detail_lang := Some "ar"; detail_dir := JStr "rtl" |} ] ++ [ev])%list
       /\ detail_lang ev
          = getCurrentLang (i18n (after (setLanguage "en")
                                    (ready "ar" "rtl" (sample_browser only_ar))))
       /\ meta_dir (translations (i18n (after (setLanguage "en")
                                          (ready "ar" "rtl" (sample_browser only_ar)))))
          = Ok (detail_dir ev).
Proof.
  split; [vm_compute; reflexivity|].
  apply (setLanguage_dispatches_once "en"
           (ready "ar" "rtl" (sample_browser only_ar))). vm_compute; reflexivity.
Defined.

(** C10.  A call of [setLanguage] that returns [true] ends by saving the
    language that is now active: storage, where it accepts the write, holds
    that code as the preference, in place of whatever was saved before;
    when the requested bundle failed to load, the code is the default
    language and not the requested one. *)
Theorem setLanguage_saves_loaded_language (c : string) (w w' : World) :
  setLanguage c w = Some (Ok true, w') ->
  exists loaded,
    getCurrentLang (i18n w') = Some loaded
    /\ localStorage w' =
         (if storage_writable (browser w)
          then <[storageKey := loaded]> (localStorage w) else localStorage w)
    /\ (storage_writable (browser w) = true ->
        localStorage w' !! storageKey = Some loaded)
    /\ (load_fails c w -> loaded = defaultLang (i18n w)).
Proof.
  intros Hrun.
  destruct (setLanguage_inv _ _ _ _ Hrun) as (b & [= <-] & HS).
  destruct (SetLanguage_success _ _ _ HS) as [HA|(e & w1 & _ & HA1 & HA2)].
  - exists c.
    assert (Hfail : load_fails c w -> c = defaultLang (i18n w)).
    { intros Hfail. apply load_fails_Attempt in Hfail as (e & w1 & HA1).
      destruct (Attempt_kind _ _ _ _ _ _ HA HA1). }
    inversion HA as [| |body d ? Hn Hd HI HR HB HE HL]; subst.
    unfold getCurrentLang. rewrite HI, HL. repeat split; try assumption.
    intros ->. apply lookup_insert_eq.
  - exists (defaultLang (i18n w)).
    destruct (Attempt_frame _ _ _ _ HA1) as (_ & _ & B1 & _).
    destruct (Attempt_throw_frame _ _ _ _ HA1) as (_ & L1 & _).
    inversion HA2 as [| |body d ? Hn Hd HI HR HB HE HL]; subst.
    unfold getCurrentLang. rewrite HI, HL, B1, L1. repeat split.
    intros ->. apply lookup_insert_eq.
Qed.

Lemma setLanguage_saves_loaded_language_witness :
  setLanguage "en" (ready "en" "ltr" (sample_browser only_ar))
    = Some (Ok true, after (setLanguage "en") (ready "en" "ltr" (sample_browser only_ar)))
  /\ localStorage (ready "en" "ltr" (sample_browser only_ar)) !! storageKey = Some "en"
  /\ exists loaded,
       getCurrentLang (i18n (after (setLanguage "en")
                               (ready "en" "ltr" (sample_browser only_ar))))
         = Some loaded
       /\ localStorage (after (setLanguage "en")
                          (ready "en" "ltr" (sample_browser only_ar)))
          = <[storageKey := loaded]> {[ storageKey := "en" ]}
       /\ (true = true ->
           localStorage (after (setLanguage "en")
                           (ready "en" "ltr" (sample_browser only_ar)))
             !! storageKey = Some loaded)
       /\ (load_fails "en" (ready "en" "ltr" (sample_browser only_ar)) ->
           loaded = "ar").
Proof.
  split; [vm_compute; reflexivity|]. split; [vm_compute; reflexivity|].
  apply (setLanguage_saves_loaded_language "en"
           (ready "en" "ltr" (sample_browser only_ar))). vm_compute; reflexivity.
Defined.

(** [loadLanguages] returns normally whatever the server does, and only
    touches the registry and the default. *)
Lemma loadLanguages_total (w : World) :
  exists w', loadLanguages w = Some (Ok tt, w')
    /\ currentLang (i18n w') = currentLang (i18n w)
    /\ translations (i18n w') = translations (i18n w)
    /\ localStorage w' = localStorage w
    /\ requests w' = (requests w ++ [GetManifest])%list
    /\ events w' = events w /\ browser w' = browser w.
Proof.
  unfold loadLanguages, try_catch, bind, fetch, response_json.
  destruct (manifest_response (browser w) (length (requests w))) as [|ok [data|]];
    eexists; (split; [reflexivity | repeat split]).
Qed.

(** The [catch] branch: the registry becomes the fallback list and the
    default is not assigned. *)
Lemma loadLanguages_unavailable (w : World) :
  manifest_unavailable w ->
  exists w',
    loadLanguages w = Some (Ok tt, w')
    /\ languages (i18n w') = fallback_languages
    /\ defaultLang (i18n w') = defaultLang (i18n w).
Proof.
  intros Hno. unfold manifest_unavailable in Hno.
  unfold loadLanguages, try_catch, bind, fetch, response_json.
  destruct (manifest_response (browser w) (length (requests w))) as [|ok [data|]].
  - eexists; split; [reflexivity|]. now split.
  - destruct (Hno ok data eq_refl).
  - eexists; split; [reflexivity|]. now split.
Qed.

(** C5.  Whenever the manifest cannot be fetched or parsed,
    [loadLanguages] returns normally and leaves the registry as the two
    fallback descriptors, [ar] (rtl) and [en] (ltr).  The [catch] branch
    does not assign [defaultLang], which therefore keeps the ["ar"] the
    constructor gave it. *)
Theorem loadLanguages_falls_back (w : World) :
  manifest_unavailable w ->
  defaultLang (i18n w) = "ar" ->
  exists w',
    loadLanguages w = Some (Ok tt, w')
    /\ getLanguages (i18n w') = fallback_languages
    /\ map (fun l => (code l, dir l)) (getLanguages (i18n w'))
       = [("ar", "rtl"); ("en", "ltr")]
    /\ defaultLang (i18n w') = "ar".
Proof.
  intros Hno Hdl.
  destruct (loadLanguages_unavailable w Hno) as (w' & E & L & D).
  exists w'. unfold getLanguages. rewrite L, D. now repeat split.
Qed.

Lemma loadLanguages_falls_back_witness :
  manifest_unavailable (startup ∅ (sample_browser only_ar))
  /\ defaultLang (i18n (startup ∅ (sample_browser only_ar))) = "ar"
  /\ exists w',
       loadLanguages (startup ∅ (sample_browser only_ar)) = Some (Ok tt, w')
       /\ getLanguages (i18n w') = fallback_languages
       /\ map (fun l => (code l, dir l)) (getLanguages (i18n w'))
          = [("ar", "rtl"); ("en", "ltr")]
       /\ defaultLang (i18n w') = "ar".
Proof.
  assert (H : manifest_unavailable (startup ∅ (sample_browser only_ar)))
    by (intros ok data; discriminate).
  split; [exact H|]. split; [reflexivity|].
  exact (loadLanguages_falls_back _ H eq_refl).
Defined.

(** C9.  Neither preference operation throws: [getSavedLanguage] returns
    the stored string, or null when there is none or storage cannot be
    read; [saveLanguage] returns normally for every code, also when the
    write is refused. *)
Theorem preference_store_never_throws (w : World) :
  (exists r, getSavedLanguage w = Some (Ok r, w)
             /\ r = saved_preference w
             /\ (storage_readable (browser w) = false -> r = None))
  /\ forall c, exists w',
       saveLanguage c w = Some (Ok tt, w')
       /\ i18n w' = i18n w
       /\ (storage_writable (browser w) = false -> localStorage w' = localStorage w)
       /\ (storage_writable (browser w) = true ->
           localStorage w' !! storageKey = Some c).
Proof.
  split.
  - eexists. split; [apply getSavedLanguage_spec|]. split; [reflexivity|].
    now intros ->.
  - intros c. destruct (saveLanguage_spec w c) as (w' & E & I & _ & _ & _ & L).
    exists w'. repeat split; try assumption.
    + intros Hw. now rewrite L, Hw.
    + intros Hw. now rewrite L, Hw, lookup_insert_eq.
Qed.

(** ** Browser detection and start-up *)

Lemma split_head (tag : string) :
  exists rest, split "-" tag = before_hyphen tag :: rest.
Proof.
  induction tag as [|c tag [rest IH]]; simpl.
  - now exists [].
  - destruct (Ascii.eqb c "-"); [eauto|]. rewrite IH. eauto.
Qed.

(** [split('-')[0]] is the primary subtag. *)
Lemma primary_subtag_before_hyphen (tag : string) :
  primary_subtag tag = before_hyphen tag.
Proof.
  unfold primary_subtag. destruct (split_head tag) as [rest ->]. reflexivity.
Qed.

Example primary_subtag_en_US : primary_subtag "en-US" = "en".
Proof. reflexivity. Qed.

Lemma find_language_registered (self : I18n) (c : string) :
  registered self c <-> exists l, find_language (languages self) c = Some l.
Proof.
  unfold registered, find_language. split.
  - intros (l & Hin & Hc).
    destruct (find (fun l => String.eqb (code l) c) (languages self)) as [l'|] eqn:E;
      [eauto|].
    apply (find_none _ _ E) in Hin. rewrite Hc, String.eqb_refl in Hin. discriminate.
  - intros (l & E). apply find_some in E as (Hin & Hc).
    exists l. split; [exact Hin|]. now apply String.eqb_eq.
Qed.

Lemma getBrowserLanguage_run (w : World) :
  getBrowserLanguage w =
    Some (Ok (match browser_language (browser w) with
              | None => None
              | Some bl =>
                  match find_language (languages (i18n w)) (primary_subtag bl) with
                  | Some _ => Some (primary_subtag bl)
                  | None => None
                  end
              end), w).
Proof.
  unfold getBrowserLanguage, browser_language. mstep.
  destruct (or_string (or_string _ _) None) as [bl|]; [|reflexivity].
  now mstep.
Qed.

(** The language [init] asks [setLanguage] for, in the world [w1] left by
    [loadLanguages], [r] being what browser detection returned. *)
Lemma init_run (w : World) :
  exists w1 r b w2 w',
    loadLanguages w = Some (Ok tt, w1)
    /\ getBrowserLanguage w1 = Some (Ok r, w1)
    /\ SetLanguage (or_default (or_string (saved_preference w1) r)
                               (defaultLang (i18n w1))) w1 b w2
    /\ init w = Some (Ok tt, w')
    /\ i18n w' = i18n w2 /\ requests w' = requests w2
    /\ events w' = events w2 /\ localStorage w' = localStorage w2.
Proof.
  destruct (loadLanguages_total w) as (w1 & E1 & _).
  pose proof (getBrowserLanguage_run w1) as Eb.
  set (r := match browser_language (browser w1) with
            | None => None
            | Some bl =>
                match find_language (languages (i18n w1)) (primary_subtag bl) with
                | Some _ => Some (primary_subtag bl)
                | None => None
                end
            end) in Eb.
  set (initialLang := or_default (or_string (saved_preference w1) r)
                                 (defaultLang (i18n w1))).
  destruct (setLanguage_run 0 initialLang w1) as (b & w2 & E2 & HS).
  destruct (setupLanguageSwitcher_spec w2) as (w3 & E3 & I3 & L3 & R3 & V3 & _).
  exists w1, r, b, w2, w3. repeat split; try assumption.
  unfold init. apply try_catch_ok.
  rewrite (bind_ok _ _ _ _ _ E1).
  rewrite (bind_ok _ _ _ _ _ (getSavedLanguage_spec w1)).
  rewrite (bind_ok _ _ _ _ _ Eb).
  mstep. fold (saved_preference w1). fold initialLang.
  unfold setLanguage. rewrite (bind_ok _ _ _ _ _ E2). exact E3.
Qed.

(** Every call makes its first request for the requested language. *)
Lemma SetLanguage_first_request (c : string) (w w' : World) (b : bool) :
  SetLanguage c w b w' ->
  exists rest, requests w' = (requests w ++ GetBundle c :: rest)%list.
Proof.
  inversion 1 as [? HA|e wa HA Heq|e wa ra ? HA _ HA2 Hr]; subst.
  - destruct (Attempt_frame _ _ _ _ HA) as (_ & _ & _ & ->). now exists [].
  - destruct (Attempt_frame _ _ _ _ HA) as (_ & _ & _ & ->). now exists [].
  - destruct (Attempt_frame _ _ _ _ HA) as (_ & _ & _ & Ra).
    destruct (Attempt_frame _ _ _ _ HA2) as (_ & _ & _ & ->).
    rewrite Ra, <- app_assoc. eauto.
Qed.

(** C7.  Browser detection returns the primary subtag of the browser
    language when that subtag is the code of a registry entry and null
    otherwise, also when the browser reports no language; and the first
    bundle [init] asks for is that of the saved preference, else of the
    detected language, else of the default: an unsupported browser
    language is not what [init] starts from. *)
Theorem getBrowserLanguage_supported_subtag (w : World) :
  (exists r,
     getBrowserLanguage w = Some (Ok r, w)
     /\ match browser_language (browser w) with
        | None => r = None
        | Some tag =>
            (registered (i18n w) (before_hyphen tag) -> r = Some (before_hyphen tag))
            /\ (~ registered (i18n w) (before_hyphen tag) -> r = None)
        end)
  /\ exists w1 r w' rest,
       loadLanguages w = Some (Ok tt, w1)
       /\ getBrowserLanguage w1 = Some (Ok r, w1)
       /\ init w = Some (Ok tt, w')
       /\ requests w' =
            (requests w ++
             GetManifest
             :: GetBundle (or_default (or_string (saved_preference w1) r)
                                      (defaultLang (i18n w1)))
             :: rest)%list.
Proof.
  split.
  - eexists. split; [apply getBrowserLanguage_run|].
    destruct (browser_language (browser w)) as [tag|]; [|reflexivity].
    rewrite primary_subtag_before_hyphen.
    destruct (find_language (languages (i18n w)) (before_hyphen tag)) as [l|] eqn:E.
    + split; [reflexivity|]. intros Hno. exfalso. apply Hno.
      apply find_language_registered. eauto.
    + split; [|reflexivity]. intros Hreg.
      apply find_language_registered in Hreg as (l & Hl). congruence.
  - destruct (init_run w) as (w1 & r & b & w2 & w' & E1 & Eb & HS & Ei & _ & R & _).
    destruct (SetLanguage_first_request _ _ _ _ HS) as (rest & Hreq).
    destruct (loadLanguages_total w) as (w1' & E1' & _ & _ & _ & R1 & _).
    rewrite E1 in E1'. injection E1' as <-.
    exists w1, r, w', rest. repeat split; try assumption.
    rewrite R, Hreq, R1, <- app_assoc. reflexivity.
Qed.

Lemma SetLanguage_frame (c : string) (w w' : World) (b : bool) :
  SetLanguage c w b w' ->
  languages (i18n w') = languages (i18n w)
  /\ defaultLang (i18n w') = defaultLang (i18n w).
Proof.
  inversion 1 as [? HA|e wa HA Heq|e wa ra ? HA _ HA2 Hr]; subst.
  - destruct (Attempt_frame _ _ _ _ HA) as (L & D & _). now split.
  - destruct (Attempt_frame _ _ _ _ HA) as (L & D & _). now split.
  - destruct (Attempt_frame _ _ _ _ HA) as (L & D & _).
    destruct (Attempt_frame _ _ _ _ HA2) as (L2 & D2 & _).
    split; congruence.
Qed.

(** Start-up with the manifest out of reach: [init] completes over the
    fallback registry with [ar] as the default. *)
Lemma init_manifest_unavailable (w : World) :
  i18n w = constructor ->
  manifest_unavailable w ->
  exists w', init w = Some (Ok tt, w')
    /\ getLanguages (i18n w') = fallback_languages
    /\ defaultLang (i18n w') = "ar".
Proof.
  intros Hnew Hno.
  destruct (loadLanguages_unavailable w Hno) as (w1 & E1 & L1 & D1).
  rewrite Hnew in D1. simpl in D1.
  destruct (init_run w) as (w1' & r & b & w2 & w' & E1' & _ & HS & Ei & I & _).
  rewrite E1 in E1'. injection E1' as <-.
  destruct (SetLanguage_frame _ _ _ _ HS) as (L2 & D2).
  exists w'. split; [exact Ei|]. unfold getLanguages in *. rewrite I.
  split; congruence.
Qed.

(** ** The active language and the registry *)

Lemma Attempt_currentLang (c : string) (w w' : World) (r : Result bool) :
  Attempt c w r w' ->
  currentLang (i18n w') = currentLang (i18n w)
  \/ currentLang (i18n w') = Some c.
Proof.
  destruct 1 as [e H|body e H1 H2|body d w' H1 H2 HI]; [now left|now right|].
  right. now rewrite HI.
Qed.

(** After [setLanguage(c)] the active language is the previous one, [c],
    or the default. *)
Lemma SetLanguage_currentLang (c : string) (w w' : World) (b : bool) :
  SetLanguage c w b w' ->
  languages (i18n w') = languages (i18n w)
  /\ (currentLang (i18n w') = currentLang (i18n w)
      \/ currentLang (i18n w') = Some c
      \/ currentLang (i18n w') = Some (defaultLang (i18n w))).
Proof.
  inversion 1 as [? HA|e wa HA Heq|e wa ra ? HA _ HA2 Hr]; subst.
  - destruct (Attempt_frame _ _ _ _ HA) as (L & _).
    destruct (Attempt_currentLang _ _ _ _ HA); auto.
  - destruct (Attempt_frame _ _ _ _ HA) as (L & _).
    destruct (Attempt_currentLang _ _ _ _ HA); auto.
  - destruct (Attempt_frame _ _ _ _ HA) as (L & _).
    destruct (Attempt_frame _ _ _ _ HA2) as (L2 & _).
    split; [congruence|].
    destruct (Attempt_currentLang _ _ _ _ HA2) as [H2|H2]; [|auto].
    rewrite H2. destruct (Attempt_currentLang _ _ _ _ HA); auto.
Qed.

Lemma registered_same_languages (self self' : I18n) (c : string) :
  languages self' = languages self -> registered self c -> registered self' c.
Proof. unfold registered. now intros ->. Qed.

(** C6, counterexample.  The manifest cannot be fetched, so the registry is
    [ar], [en]; the saved preference is [fr] and [fr.json] is served.
    [init] completes with [fr] active, a code outside the registry. *)
Lemma init_saved_language_outside_registry :
  outcome init (startup {[ storageKey := "fr" ]} (sample_browser ar_and_fr))
    = Some (Ok tt)
  /\ getCurrentLang
       (i18n (after init (startup {[ storageKey := "fr" ]} (sample_browser ar_and_fr))))
     = Some "fr"
  /\ map code
       (getLanguages
          (i18n (after init (startup {[ storageKey := "fr" ]} (sample_browser ar_and_fr)))))
     = ["ar"; "en"]
  /\ ~ registered
         (i18n (after init (startup {[ storageKey := "fr" ]} (sample_browser ar_and_fr))))
         "fr".
Proof.
  split; [vm_compute; reflexivity|]. split; [vm_compute; reflexivity|].
  split; [vm_compute; reflexivity|].
  intros (l & Hin & Hc). vm_compute in Hin.
  destruct Hin as [<-|[<-|[]]]; discriminate.
Qed.

(** C6, amended.  [setLanguage] makes no check against the registry; it
    keeps the active language inside the registry when the requested code
    and the default language are registry codes. *)
Theorem setLanguage_keeps_active_registered
    (c : string) (w w' : World) (r : Result bool) :
  setLanguage c w = Some (r, w') ->
  registered (i18n w) c ->
  registered (i18n w) (defaultLang (i18n w)) ->
  active_registered (i18n w) ->
  active_registered (i18n w').
Proof.
  intros Hrun Hc Hd Hinv a Ha.
  destruct (setLanguage_inv _ _ _ _ Hrun) as (b & _ & HS).
  destruct (SetLanguage_currentLang _ _ _ _ HS) as (L & [H|[H|H]]);
    apply (registered_same_languages (i18n w)); try exact L.
  - apply Hinv. congruence.
  - congruence.
  - congruence.
Qed.

Lemma setLanguage_keeps_active_registered_witness :
  setLanguage "en" (ready "ar" "rtl" (sample_browser only_ar))
    = Some (Ok true, after (setLanguage "en") (ready "ar" "rtl" (sample_browser only_ar)))
  /\ registered (i18n (ready "ar" "rtl" (sample_browser only_ar))) "en"
  /\ registered (i18n (ready "ar" "rtl" (sample_browser only_ar))) "ar"
  /\ active_registered (i18n (ready "ar" "rtl" (sample_browser only_ar)))
  /\ active_registered
       (i18n (after (setLanguage "en") (ready "ar" "rtl" (sample_browser only_ar)))).
Proof.
  assert (Hen : registered (i18n (ready "ar" "rtl" (sample_browser only_ar))) "en")
    by (eexists; split; [right; left; reflexivity | reflexivity]).
  assert (Har : registered (i18n (ready "ar" "rtl" (sample_browser only_ar))) "ar")
    by (eexists; split; [left; reflexivity | reflexivity]).
  assert (Hact : active_registered (i18n (ready "ar" "rtl" (sample_browser only_ar))))
    by (intros a [= <-]; exact Har).
  assert (Hrun : setLanguage "en" (ready "ar" "rtl" (sample_browser only_ar))
    = Some (Ok true, after (setLanguage "en") (ready "ar" "rtl" (sample_browser only_ar))))
    by (vm_compute; reflexivity).
  split; [exact Hrun|]. split; [exact Hen|]. split; [exact Har|].
  split; [exact Hact|].
  exact (setLanguage_keeps_active_registered "en" _ _ _ Hrun Hen Har Hact).
Defined.

Lemma or_string_cases (a b : option string) :
  (exists s, a = Some s /\ s <> "" /\ or_string a b = Some s)
  \/ or_string a b = b.
Proof.
  destruct a as [s|]; simpl; [|now right].
  destruct (String.eqb_spec s ""); [now right | left; eauto].
Qed.

Lemma or_default_cases (a : option string) (d : string) :
  (exists s, a = Some s /\ s <> "" /\ or_default a d = s)
  \/ or_default a d = d.
Proof.
  unfold or_default.
  destruct (or_string_cases a (Some d)) as [(s & -> & Hs & ->)| ->];
    [left; eauto | now right].
Qed.

(** What detection returns is a registry code. *)
Lemma getBrowserLanguage_registered (w w' : World) (c : string) :
  getBrowserLanguage w = Some (Ok (Some c), w') -> registered (i18n w) c.
Proof.
  rewrite getBrowserLanguage_run. intros [= H _].
  destruct (browser_language (browser w)) as [tag|]; [|discriminate].
  destruct (find_language (languages (i18n w)) (primary_subtag tag)) as [l|] eqn:El;
    [|discriminate].
  injection H as <-. apply find_language_registered. eauto.
Qed.

(** At start-up the same holds of [init], whose request is the saved
    preference, else the detected language, else the default: it is the
    saved preference that has to be a registry code. *)
Lemma init_keeps_active_registered (w w' : World) (r : Result unit) :
  init w = Some (r, w') ->
  currentLang (i18n w) = None ->
  (forall w1, loadLanguages w = Some (Ok tt, w1) ->
     registered (i18n w1) (defaultLang (i18n w1))
     /\ forall s, saved_preference w1 = Some s -> s <> "" ->
                  registered (i18n w1) s) ->
  active_registered (i18n w').
Proof.
  intros Hrun Hnone Hreg a Ha.
  destruct (init_run w) as (w1 & d & b & w2 & w3 & E1 & Eb & HS & Ei & I3 & _).
  rewrite Ei in Hrun. injection Hrun as _ <-.
  destruct (Hreg w1 E1) as (Hd & Hs).
  destruct (loadLanguages_total w) as (w1' & E1' & C1 & _).
  rewrite E1 in E1'. injection E1' as <-.
  destruct (SetLanguage_currentLang _ _ _ _ HS) as (L & Hcur).
  rewrite I3 in Ha |- *.
  apply (registered_same_languages (i18n w1)); [exact L|].
  destruct Hcur as [H|[H|H]]; rewrite H in Ha.
  - congruence.
  - injection Ha as <-.
    destruct (or_default_cases (or_string (saved_preference w1) d)
                               (defaultLang (i18n w1)))
      as [(s & Hs1 & Hne & ->)| ->]; [|exact Hd].
    destruct (or_string_cases (saved_preference w1) d)
      as [(s' & Hsaved & Hne' & Hos)|Hos]; rewrite Hos in Hs1.
    + injection Hs1 as ->. now apply Hs.
    + subst d. exact (getBrowserLanguage_registered _ _ _ Eb).
  - injection Ha as <-. exact Hd.
Qed.

(** ** Lookup *)

Lemma mem_string_false (k x : string) (l : list string) :
  mem_string k l = false -> In x l -> String.eqb k x = false.
Proof.
  unfold mem_string. intros H Hin.
  destruct (String.eqb k x) eqn:E; [|reflexivity].
  assert (existsb (String.eqb k) l = true) as Hex
    by (apply existsb_exists; eauto).
  congruence.
Qed.

(** For any other name, [k in v] and [v[k]] see own members only. *)
Lemma lookup_member_own (v : JVal) (k : string) :
  builtin_name k = false ->
  truthy v && typeof_object v = true ->
  lookup_member v k = own_member v k.
Proof.
  unfold builtin_name. intros Hk Hv.
  assert (Hobj : mem_string k object_prototype_keys = false).
  { unfold mem_string in *. rewrite existsb_app in Hk.
    now apply orb_false_elim in Hk. }
  assert (Harr : mem_string k array_prototype_keys = false).
  { unfold mem_string in *. rewrite !existsb_app in Hk.
    apply orb_false_elim in Hk as (_ & Hk). now apply orb_false_elim in Hk. }
  assert (Hproto : String.eqb k "__proto__" = false).
  { apply (mem_string_false k _ _ Hobj). simpl. tauto. }
  assert (Hctor : String.eqb k "constructor" = false).
  { apply (mem_string_false k _ _ Hobj). simpl. tauto. }
  assert (Hlen : String.eqb k "length" = false).
  { apply (mem_string_false k _ _ Hk). apply in_or_app. right.
    apply in_or_app. right. simpl. tauto. }
  assert (Hop : object_prototype_member k = None).
  { unfold object_prototype_member. now rewrite Hctor, Hobj. }
  assert (Hap : array_prototype_member k = None).
  { unfold array_prototype_member. now rewrite Hlen, Hctor, Harr. }
  destruct v as [| |b|n|s|items|fields|f|p]; simpl in Hv |- *;
    try discriminate; try (rewrite andb_false_r in Hv; discriminate).
  - destruct (array_element 0 items k); [reflexivity|].
    now rewrite Hlen, Hproto.
  - destruct (own_property fields k); [reflexivity|].
    now rewrite Hproto.
  - destruct p; now rewrite Hproto.
Qed.

Lemma t_loop_resolve (key : string) (path : list string) (v : JVal) :
  (forall k, In k path -> builtin_name k = false) ->
  t_loop key v path = match resolve v path with Some x => x | None => JStr key end.
Proof.
  revert v. induction path as [|k path IH]; intros v Hpath; [reflexivity|].
  simpl. unfold has_property, get_member.
  destruct (truthy v && typeof_object v) eqn:Hv.
  - rewrite (lookup_member_own v k (Hpath k (or_introl eq_refl)) Hv).
    destruct (own_member v k) as [x|]; [|reflexivity].
    apply IH. intros k' Hk'. apply Hpath. now right.
  - simpl. destruct v; simpl in Hv |- *; try discriminate; reflexivity.
Qed.

(** Away from built-in names, [t] is the lookup of the specification:
    the value reached along the path, and the key itself when a segment
    is missing. *)
Lemma t_refines_lookup (self : I18n) (key : string) :
  (forall k, In k (split "." key) -> builtin_name k = false) ->
  t self key = lookup (translations self) key.
Proof. intros H. unfold t, lookup. now apply t_loop_resolve. Qed.

Example lookup_a_b_c :
  get (set_translations (sample_bundle "ar" "rtl") constructor) "a.b.c" = JStr "X".
Proof. vm_compute; reflexivity. Qed.

Example lookup_a_z :
  get (set_translations (sample_bundle "ar" "rtl") constructor) "a.z" = JStr "a.z".
Proof. vm_compute; reflexivity. Qed.

(** C4, failing input.  The bundle has no entry [constructor], so the
    lookup of the specification yields the key; [t] finds the name with
    [in] on the prototype chain and returns the built-in function
    [Object] instead.  One level down, [a.toString] is likewise answered
    with a built-in function. *)
Lemma t_inherited_name_not_key :
  own_member (sample_bundle "ar" "rtl") "constructor" = None
  /\ lookup (sample_bundle "ar" "rtl") "constructor" = JStr "constructor"
  /\ t (set_translations (sample_bundle "ar" "rtl") constructor) "constructor"
     = JFunc "Object"
  /\ lookup (sample_bundle "ar" "rtl") "a.toString" = JStr "a.toString"
  /\ get (set_translations (sample_bundle "ar" "rtl") constructor) "a.toString"
     = JFunc "Object.prototype.toString".
Proof. evaluate. Qed.

(** * Further properties of the manager *)

(** ** What a switch does to the page *)

Lemma translatePage_document (w : World) :
  exists w', translatePage w = Some (Ok tt, w')
    /\ i18n w' = i18n w /\ localStorage w' = localStorage w
    /\ requests w' = requests w /\ events w' = events w
    /\ browser w' = browser w
    /\ html_lang (document w') = html_lang (document w)
    /\ html_dir (document w') = html_dir (document w)
    /\ currentLangFlag (document w') = currentLangFlag (document w)
    /\ lang_dropdown (document w') = lang_dropdown (document w)
    /\ elements (document w') = map (translate_node (i18n w)) (elements (document w)).
Proof.
  eexists; split; [reflexivity | repeat split].
  simpl. rewrite !map_map. reflexivity.
Qed.

Lemma updateLanguageSwitcher_document (w : World) :
  exists w', updateLanguageSwitcher w = Some (Ok tt, w')
    /\ i18n w' = i18n w /\ localStorage w' = localStorage w
    /\ requests w' = requests w /\ events w' = events w
    /\ browser w' = browser w
    /\ html_lang (document w') = html_lang (document w)
    /\ html_dir (document w') = html_dir (document w)
    /\ elements (document w') = elements (document w)
    /\ lang_dropdown (document w') = lang_dropdown (document w)
    /\ currentLangFlag (document w')
       = flag_after (i18n w) (currentLangFlag (document w)).
Proof.
  unfold updateLanguageSwitcher, flag_after, bind, gets; simpl.
  destruct (currentLang (i18n w)) as [cur|];
    [destruct (find_language (languages (i18n w)) cur);
     destruct (currentLangFlag (document w)) eqn:F|];
    eexists; (split; [reflexivity | repeat split; simpl; rewrite ?F; reflexivity]).
Qed.

Lemma saveLanguage_document (w : World) (c : string) :
  exists w', saveLanguage c w = Some (Ok tt, w')
    /\ i18n w' = i18n w /\ document w' = document w
    /\ requests w' = requests w /\ events w' = events w
    /\ browser w' = browser w
    /\ localStorage w' =
         (if storage_writable (browser w)
          then <[storageKey := c]> (localStorage w) else localStorage w).
Proof.
  unfold saveLanguage, try_catch, localStorage_setItem.
  destruct (storage_writable (browser w));
    eexists; (split; [reflexivity | repeat split]).
Qed.

Lemma applyLanguage_document (w : World) (meta lang d : JVal) :
  get_prop (translations (i18n w)) "meta" = Ok meta ->
  get_prop meta "lang" = Ok lang ->
  get_prop meta "dir" = Ok d ->
  exists w', applyLanguage w = Some (Ok tt, w')
    /\ i18n w' = i18n w /\ localStorage w' = localStorage w
    /\ requests w' = requests w /\ browser w' = browser w
    /\ events w' = (events w ++ [ {| detail_lang := currentLang (i18n w);
                                    detail_dir := d |} ])%list
    /\ html_lang (document w') = lang
    /\ html_dir (document w') = d
    /\ elements (document w') = map (translate_node (i18n w)) (elements (document w))
    /\ lang_dropdown (document w') = lang_dropdown (document w)
    /\ currentLangFlag (document w')
       = flag_after (i18n w) (currentLangFlag (document w)).
Proof.
  intros Hmeta Hlang Hdir. unfold applyLanguage. mstep.
  rewrite Hmeta. mstep. rewrite Hlang, Hdir. do 4 mstep.
  set (w1 := with_document (set_html_dir d) (with_document (set_html_lang lang) w)).
  destruct (translatePage_document w1)
    as (w2 & E2 & I2 & L2 & R2 & V2 & B2 & HL2 & HD2 & F2 & DD2 & EL2).
  rewrite (bind_ok _ _ _ _ _ E2).
  destruct (updateLanguageSwitcher_document w2)
    as (w3 & E3 & I3 & L3 & R3 & V3 & B3 & HL3 & HD3 & EL3 & DD3 & F3).
  rewrite (bind_ok _ _ _ _ _ E3). do 2 mstep.
  eexists; split; [reflexivity|]. simpl.
  rewrite I3, I2, L3, L2, R3, R2, B3, B2, V3, V2,
    HL3, HL2, HD3, HD2, EL3, EL2, DD3, DD2, F3, F2, I2.
  repeat split.
Qed.

(** The page, the manager and the logs after the [try] block of
    [setLanguage(c)] has applied the delivered bundle. *)
Lemma setLanguage_try_applied (c : string) (w : World) (body meta lang d : JVal) :
  next_bundle w c = Response true (Some body) ->
  get_prop body "meta" = Ok meta ->
  get_prop meta "lang" = Ok lang ->
  get_prop meta "dir" = Ok d ->
  exists w', setLanguage_try c w = Some (Ok true, w')
    /\ i18n w' = set_currentLang (Some c) (set_translations body (i18n w))
    /\ requests w' = (requests w ++ [GetBundle c])%list
    /\ browser w' = browser w
    /\ events w' = (events w ++ [ {| detail_lang := Some c; detail_dir := d |} ])%list
    /\ localStorage w' =
         (if storage_writable (browser w)
          then <[storageKey := c]> (localStorage w) else localStorage w)
    /\ html_lang (document w') = lang
    /\ html_dir (document w') = d
    /\ elements (document w')
       = map (translate_node (i18n w')) (elements (document w))
    /\ lang_dropdown (document w') = lang_dropdown (document w)
    /\ currentLangFlag (document w')
       = flag_after (i18n w') (currentLangFlag (document w)).
Proof.
  intros Hnext Hmeta Hlang Hdir. unfold setLanguage_try.
  assert (Hfetch : fetch (GetBundle c) (fun b n => bundle_response b n c) w
                   = Some (Ok (true, Some body), logged c w)).
  { unfold fetch. fold (next_bundle w c). now rewrite Hnext. }
  rewrite (bind_ok _ _ _ _ _ Hfetch). cbv beta. cbn [fst negb].
  mstep. do 2 mstep. fold (swapped c body (logged c w)).
  destruct (applyLanguage_document (swapped c body (logged c w)) meta lang d
              Hmeta Hlang Hdir)
    as (w2 & E2 & I2 & L2 & R2 & B2 & V2 & HL & HD & EL & DD & FL).
  rewrite (bind_ok _ _ _ _ _ E2).
  destruct (saveLanguage_document w2 c) as (w3 & E3 & I3 & D3 & R3 & V3 & B3 & L3).
  rewrite (bind_ok _ _ _ _ _ E3).
  exists w3. split; [reflexivity|].
  rewrite D3, I3, I2, R3, R2, V3, V2, L3, L2, B3, B2.
  repeat split; first [assumption | reflexivity].
Qed.














(** ** Repeating an operation *)
















(** ** Direction, lookup, start-up *)

(** X8.  [getDirection()] throws exactly when the active bundle is null
    (or undefined); otherwise it returns a truthy value: the bundle's
    [meta.dir] when there is a truthy one, and ["ltr"] when [meta] or
    [meta.dir] is missing or falsy.  In particular it is ["ltr"], and
    [isRTL()] false, on a freshly constructed manager. *)
Theorem getDirection_defaults_to_ltr (self : I18n) :
  (translations self = JNull \/ translations self = JUndef ->
   getDirection self = Throw TypeError)
  /\ (translations self <> JNull -> translations self <> JUndef ->
      exists d,
        getDirection self = Ok d
        /\ truthy d = true
        /\ (forall x, meta_dir (translations self) = Ok x ->
                      truthy x = true -> d = x)
        /\ (forall x, meta_dir (translations self) = Ok x ->
                      truthy x = false -> d = JStr "ltr")
        /\ (forall e, meta_dir (translations self) = Throw e -> d = JStr "ltr"))
  /\ getDirection constructor = Ok (JStr "ltr")
  /\ isRTL constructor = Ok false.
Proof.
  split; [|split; [|split; reflexivity]].
  - unfold getDirection. now intros [-> | ->].
  - intros Hnull Hundef. unfold getDirection, meta_dir.
    destruct (get_prop (translations self) "meta") as [meta|e] eqn:Hmeta.
    2:{ destruct (translations self); try discriminate; congruence. }
    destruct (get_prop_opt meta "dir") as [x|e] eqn:Hopt.
    2:{ destruct meta; simpl in Hopt; discriminate. }
    exists (js_or x (JStr "ltr")). split; [reflexivity|].
    split; [unfold js_or; now destruct (truthy x) eqn:E|].
    repeat split.
    + intros y Hy Hty.
      assert (x = y) as -> by (destruct meta; simpl in *; congruence).
      unfold js_or. now rewrite Hty.
    + intros y Hy Hty.
      assert (x = y) as -> by (destruct meta; simpl in *; congruence).
      unfold js_or. now rewrite Hty.
    + intros e He. destruct meta; simpl in *; try discriminate;
        injection Hopt as <-; reflexivity.
Qed.









Lemma or_default_nonempty (a : option string) (d : string) :
  d <> "" -> or_default a d <> "".
Proof.
  intros Hd. destruct (or_default_cases a d) as [(s & _ & Hs & ->)| ->]; assumption.
Qed.

(** [loadLanguages] never leaves an empty default language behind. *)
Lemma loadLanguages_default_nonempty (w w1 : World) :
  loadLanguages w = Some (Ok tt, w1) ->
  defaultLang (i18n w) <> "" -> defaultLang (i18n w1) <> "".
Proof.
  unfold loadLanguages, try_catch, bind, fetch, response_json.
  destruct (manifest_response (browser w) (length (requests w))) as [|ok [data|]];
    intros [= <-]; simpl; intros Hd; try exact Hd.
  now apply or_default_nonempty.
Qed.

(** X10.  [init] always completes without throwing.  It makes one
    manifest request, then one bundle request for the language it starts
    from and at most one more, for the default language; and the code it
    starts from is never the empty string when the default language was
    not empty (as it is not on a fresh manager): an empty saved
    preference or browser language is skipped. *)
Theorem init_requests (w : World) :
  exists w' initialLang,
    init w = Some (Ok tt, w')
    /\ (requests w' = (requests w ++ [GetManifest; GetBundle initialLang])%list
        \/ requests w' =
             (requests w ++ [GetManifest; GetBundle initialLang;
                             GetBundle (defaultLang (i18n w'))])%list)
    /\ (defaultLang (i18n w) <> "" -> initialLang <> "").
Proof.
  destruct (init_run w)
    as (w1 & r & b & w2 & w' & E1 & Eb & HS & Ei & I & R & _).
  destruct (loadLanguages_total w) as (w1' & E1' & _ & _ & _ & R1 & _).
  rewrite E1 in E1'. injection E1' as <-.
  exists w', (or_default (or_string (saved_preference w1) r) (defaultLang (i18n w1))).
  split; [exact Ei|]. split.
  - rewrite R, I.
    inversion HS as [? HA|e wa HA Heq|e wa ra ? HA _ HA2 Hr]; subst.
    + destruct (Attempt_frame _ _ _ _ HA) as (_ & _ & _ & ->).
      left. now rewrite R1, <- app_assoc.
    + destruct (Attempt_frame _ _ _ _ HA) as (_ & _ & _ & ->).
      left. now rewrite R1, <- app_assoc.
    + destruct (Attempt_frame _ _ _ _ HA) as (_ & D1 & _ & Ra).
      destruct (Attempt_frame _ _ _ _ HA2) as (_ & D2 & _ & ->).
      right. rewrite D2, D1, Ra, R1, <- !app_assoc. reflexivity.
  - intros Hd. apply or_default_nonempty.
    exact (loadLanguages_default_nonempty _ _ E1 Hd).
Qed.



(** * Content consumers *)

Lemma append_nil_right (s : string) : s ++ "" = s.
Proof.
  induction s as [|ch s IH]; [reflexivity|].
  change (String ch (s ++ "") = String ch s). now rewrite IH.
Qed.

Lemma append_associative (a b c : string) : (a ++ b) ++ c = a ++ (b ++ c).
Proof.
  induction a as [|ch a IH]; [reflexivity|].
  change (String ch ((a ++ b) ++ c) = String ch (a ++ (b ++ c))). now rewrite IH.
Qed.



(** X13.  [openProgram] with a key the bundle does not have does not
    return quietly: [get] hands back the key string, which passes the
    [!program] test; the modal title is overwritten with the undefined
    [program.title], and reading [program.questions.map] throws a
    [TypeError] before the question list or the modal is touched. *)
Theorem openProgram_missing_program_throws
    (self : I18n) (programKey : string) (page : gmap string Node) (titleNode : Node) :
  truthy (translations self) = true ->
  get self ("programs.data." ++ programKey) = JStr ("programs.data." ++ programKey) ->
  page !! "modalTitle" = Some titleNode ->
  openProgram (Some self) programKey page
    = (Throw TypeError, <["modalTitle" := set_text JUndef titleNode]> page)
  /\ snd (openProgram (Some self) programKey page) !! "qModal" = page !! "qModal"
  /\ snd (openProgram (Some self) programKey page) !! "questionsContainer"
     = page !! "questionsContainer".
Proof.
  intros Ht Hmiss Htitle.
  assert (E : openProgram (Some self) programKey page
              = (Throw TypeError, <["modalTitle" := set_text JUndef titleNode]> page)).
  { unfold openProgram, getProgramData. rewrite Ht, Hmiss, Htitle. reflexivity. }
  rewrite E. repeat split; simpl; now rewrite lookup_insert_ne.
Qed.

Lemma openProgram_missing_program_throws_witness :
  truthy (translations content_manager) = true
  /\ get content_manager ("programs.data." ++ "privacy")
     = JStr ("programs.data." ++ "privacy")
  /\ modal_page !! "modalTitle" = Some plain_node
  /\ openProgram (Some content_manager) "privacy" modal_page
     = (Throw TypeError, <["modalTitle" := set_text JUndef plain_node]> modal_page)
  /\ snd (openProgram (Some content_manager) "privacy" modal_page) !! "qModal"
     = modal_page !! "qModal"
  /\ snd (openProgram (Some content_manager) "privacy" modal_page)
       !! "questionsContainer"
     = modal_page !! "questionsContainer".
Proof.
  assert (H1 : truthy (translations content_manager) = true) by reflexivity.
  assert (H2 : get content_manager ("programs.data." ++ "privacy")
               = JStr ("programs.data." ++ "privacy")) by (vm_compute; reflexivity).
  assert (H3 : modal_page !! "modalTitle" = Some plain_node)
    by (vm_compute; reflexivity).
  split; [exact H1|]. split; [exact H2|]. split; [exact H3|].
  exact (openProgram_missing_program_throws content_manager "privacy"
           modal_page plain_node H1 H2 H3).
Defined.








Lemma substring_all (s : string) : substring 0 (String.length s) s = s.
Proof.
  induction s as [|ch s IH]; [reflexivity|].
  change (String ch (substring 0 (String.length s) s) = String ch s).
  now rewrite IH.
Qed.

Lemma prefix_append (p x : string) : String.prefix p (p ++ x) = true.
Proof.
  induction p as [|ch p IH]; [now destruct x|].
  change (String.prefix (String ch p) (String ch (p ++ x)) = true).
  simpl. now destruct (ascii_dec ch ch).
Qed.

Lemma length_append (p x : string) :
  String.length (p ++ x) = String.length p + String.length x.
Proof.
  induction p as [|ch p IH]; [reflexivity|].
  change (S (String.length (p ++ x)) = S (String.length p + String.length x)).
  now rewrite IH.
Qed.

Lemma substring_skip (p x : string) (m : nat) :
  substring (String.length p) m (p ++ x) = substring 0 m x.
Proof.
  induction p as [|ch p IH]; [reflexivity|].
  change (substring (String.length p) m (p ++ x) = substring 0 m x). exact IH.
Qed.

Lemma replace_first_unfold (pattern replacement s : string) :
  replace_first pattern replacement s
  = if String.prefix pattern s
    then replacement
         ++ substring (String.length pattern)
                      (String.length s - String.length pattern) s
    else match s with
         | EmptyString => EmptyString
         | String ch rest => String ch (replace_first pattern replacement rest)
         end.
Proof. destruct s; reflexivity. Qed.

(** Replacing a prefix. *)
Lemma replace_first_prefix (pattern replacement x : string) :
  replace_first pattern replacement (pattern ++ x) = replacement ++ x.
Proof.
  rewrite replace_first_unfold, prefix_append, substring_skip, length_append.
  replace (String.length pattern + String.length x - String.length pattern)
    with (String.length x) by lia.
  now rewrite substring_all.
Qed.

(** [refId.replace('reference-', '')] strips the prefix of an id that
    starts with it. *)
Lemma replace_reference_prefix (refName : string) :
  replace_first "reference-" "" ("reference-" ++ refName) = refName.
Proof. now rewrite replace_first_prefix. Qed.

(** X15.  When the bundle has no entry for a reference, the fallbacks
    [title || refName] and [content || 'Content not available'] of
    [openReferenceModal] do not apply: [get] returns the key strings,
    which are truthy, so the modal is shown with the two raw keys as its
    title and content.  The call does nothing when [window.i18n] is
    missing. *)
Theorem openReferenceModal_missing_shows_keys
    (self : I18n) (refName : string) (page : gmap string Node)
    (modal modalTitle modalContent : Node) :
  page !! "referenceModal" = Some modal ->
  page !! "referenceModalTitle" = Some modalTitle ->
  page !! "referenceModalContent" = Some modalContent ->
  get self ("references.modals." ++ refName ++ ".title")
    = JStr ("references.modals." ++ refName ++ ".title") ->
  get self ("references.modals." ++ refName ++ ".content")
    = JStr ("references.modals." ++ refName ++ ".content") ->
  openReferenceModal (Some self) ("reference-" ++ refName) page
    !! "referenceModalTitle"
    = Some (set_text (JStr ("references.modals." ++ refName ++ ".title")) modalTitle)
  /\ openReferenceModal (Some self) ("reference-" ++ refName) page
       !! "referenceModalContent"
     = Some (set_markup
               (reference_paragraph
                  (JStr ("references.modals." ++ refName ++ ".content")))
               modalContent)
  /\ openReferenceModal (Some self) ("reference-" ++ refName) page
       !! "referenceModal"
     = Some (add_class "show" modal)
  /\ openReferenceModal None ("reference-" ++ refName) page = page.
Proof.
  intros Hm Ht Hc Hkt Hkc. unfold openReferenceModal.
  rewrite replace_reference_prefix, Hm, Ht, Hc, Hkt, Hkc.
  repeat split.
  - now rewrite !lookup_insert_ne, lookup_insert_eq by discriminate.
  - now rewrite lookup_insert_ne, lookup_insert_eq by discriminate.
  - now rewrite lookup_insert_eq.
Qed.

Lemma openReferenceModal_missing_shows_keys_witness :
  modal_page !! "referenceModal" = Some overlay_node
  /\ modal_page !! "referenceModalTitle" = Some plain_node
  /\ modal_page !! "referenceModalContent" = Some plain_node
  /\ get content_manager ("references.modals." ++ "islam" ++ ".title")
     = JStr ("references.modals." ++ "islam" ++ ".title")
  /\ get content_manager ("references.modals." ++ "islam" ++ ".content")
     = JStr ("references.modals." ++ "islam" ++ ".content")
  /\ openReferenceModal (Some content_manager) ("reference-" ++ "islam") modal_page
       !! "referenceModalTitle"
     = Some (set_text (JStr ("references.modals." ++ "islam" ++ ".title")) plain_node).
Proof.
  assert (H1 : modal_page !! "referenceModal" = Some overlay_node)
    by (vm_compute; reflexivity).
  assert (H2 : modal_page !! "referenceModalTitle" = Some plain_node)
    by (vm_compute; reflexivity).
  assert (H3 : modal_page !! "referenceModalContent" = Some plain_node)
    by (vm_compute; reflexivity).
  assert (H4 : get content_manager ("references.modals." ++ "islam" ++ ".title")
               = JStr ("references.modals." ++ "islam" ++ ".title"))
    by (vm_compute; reflexivity).
  assert (H5 : get content_manager ("references.modals." ++ "islam" ++ ".content")
               = JStr ("references.modals." ++ "islam" ++ ".content"))
    by (vm_compute; reflexivity).
  repeat (split; [assumption|]).
  exact (proj1 (openReferenceModal_missing_shows_keys content_manager "islam"
                  modal_page _ _ _ H1 H2 H3 H4 H5)).
Defined.

(** ** Showing and hiding modals *)

Set Warnings "-clear-no-such-hyp".

Lemma remove_add_show (n : Node) :
  remove_class "show" (add_class "show" n) = remove_class "show" n.
Proof.
  unfold remove_class, add_class. simpl. f_equal. set_solver.
Qed.

Lemma add_add_show (n : Node) :
  add_class "show" (add_class "show" n) = add_class "show" n.
Proof.
  unfold add_class. simpl. f_equal. set_solver.
Qed.

(** X16.  [showModal] / [openMessagesModal] and [hideModal] /
    [closeReferenceModal] add and remove the class [show] on the node with
    the given id and touch nothing else: the other classes and the content
    of the node stay, as do all other nodes; on an unknown id they do
    nothing.  Showing twice is showing once, and hiding after showing is
    hiding. *)
Theorem showModal_hideModal (modalId : string) (page : gmap string Node) :
  (page !! modalId = None ->
   showModal modalId page = page /\ hideModal modalId page = page)
  /\ (forall n, page !! modalId = Some n ->
      exists shown hidden,
        showModal modalId page !! modalId = Some shown
        /\ hideModal modalId page !! modalId = Some hidden
        /\ ("show" ∈ classList shown) /\ ("show" ∉ classList hidden)
        /\ content shown = content n /\ content hidden = content n
        /\ forall c, c <> "show" ->
             (c ∈ classList shown <-> c ∈ classList n)
             /\ (c ∈ classList hidden <-> c ∈ classList n))
  /\ (forall id, id <> modalId ->
      showModal modalId page !! id = page !! id
      /\ hideModal modalId page !! id = page !! id)
  /\ showModal modalId (showModal modalId page) = showModal modalId page
  /\ hideModal modalId (showModal modalId page) = hideModal modalId page
  /\ openMessagesModal page = showModal "messages-modal" page
  /\ closeReferenceModal page = hideModal "referenceModal" page.
Proof.
  unfold showModal, hideModal.
  destruct (page !! modalId) as [n|] eqn:Hn.
  - split; [discriminate|]. split.
    + intros n' [= <-]. exists (add_class "show" n), (remove_class "show" n).
      rewrite !lookup_insert_eq. repeat split; simpl; set_solver.
    + split.
      * intros id Hid. now rewrite !lookup_insert_ne by congruence.
      * rewrite !lookup_insert_eq, !insert_insert_eq, remove_add_show, add_add_show.
        repeat split.
  - rewrite Hn. repeat split; discriminate.
Qed.

(** X17.  After the Escape key no node of the page is a shown
    [.modal-overlay]: every such node has lost [show] and nothing else,
    and every other node is as it was.  Any other key changes nothing. *)
Theorem modalsKeydown_escape_closes (page : gmap string Node) :
  (forall id n,
     modalsKeydown "Escape" page !! id = Some n ->
     ~ ("modal-overlay" ∈ classList n /\ "show" ∈ classList n))
  /\ (forall id n,
        page !! id = Some n ->
        exists n',
          modalsKeydown "Escape" page !! id = Some n'
          /\ content n' = content n
          /\ (forall c, c <> "show" -> (c ∈ classList n' <-> c ∈ classList n))
          /\ (~ ("modal-overlay" ∈ classList n /\ "show" ∈ classList n) -> n' = n))
  /\ (forall id, page !! id = None -> modalsKeydown "Escape" page !! id = None)
  /\ (forall key, key <> "Escape" -> modalsKeydown key page = page).
Proof.
  unfold modalsKeydown, closeShownModals. rewrite String.eqb_refl.
  split; [|split; [|split]].
  - intros id n. rewrite lookup_fmap.
    destruct (page !! id) as [m|]; [|discriminate]. simpl.
    case_bool_decide as Hm; intros [= <-]; simpl; [set_solver | exact Hm].
  - intros id n Hn. rewrite lookup_fmap, Hn. simpl.
    case_bool_decide as Hm.
    + exists (remove_class "show" n).
      split; [reflexivity|]. split; [reflexivity|]. split.
      * intros c Hc. simpl. set_solver.
      * intros Hno. now destruct Hno.
    + exists n. split; [reflexivity|]. split; [reflexivity|]. split; [tauto|].
      reflexivity.
  - intros id Hn. now rewrite lookup_fmap, Hn.
  - intros key Hkey. now destruct (String.eqb_spec key "Escape").
Qed.

(** * Utilities *)

(** ** Cookies *)


Lemma split_free (sep : ascii) (s : string) :
  occurs sep s = false -> split sep s = [s].
Proof.
  induction s as [|ch s IH]; simpl; [reflexivity|].
  intros H. apply orb_false_elim in H as (E & H). rewrite E, (IH H). reflexivity.
Qed.

(** Passing over the rest of a matched separator. *)
Lemma split_from_skip (sep p v : string) :
  split_from sep (String.length p) (p ++ v) = split_from sep 0 v.
Proof.
  induction p as [|ch p IH]; [reflexivity|].
  change (split_from sep (String.length p) (p ++ v) = split_from sep 0 v).
  exact IH.
Qed.

Lemma prefix_head_differs (a b : ascii) (p s : string) :
  Ascii.eqb b a = false -> String.prefix (String a p) (String b s) = false.
Proof.
  intros E. simpl. destruct (ascii_dec a b) as [->|]; [|reflexivity].
  now rewrite Ascii.eqb_refl in E.
Qed.

(** A stretch without the separator's first character is one part. *)
Lemma split_from_free (a : ascii) (p v : string) :
  occurs a v = false -> split_from (String a p) 0 v = [v].
Proof.
  induction v as [|ch v IH]; [reflexivity|].
  intros H. simpl in H. apply orb_false_elim in H as (E & H).
  change (split_from (String a p) 0 (String ch v))
    with (if String.prefix (String a p) (String ch v)
          then EmptyString :: split_from (String a p) (String.length (String a p) - 1) v
          else match split_from (String a p) 0 v with
               | part :: parts => String ch part :: parts
               | [] => [String ch EmptyString]
               end).
  now rewrite (prefix_head_differs a ch p v E), (IH H).
Qed.

(** Such a stretch followed by the separator: the part ends there. *)
Lemma split_from_part (a : ascii) (p v w : string) :
  occurs a v = false ->
  split_from (String a p) 0 (v ++ String a p ++ w)
  = v :: split_from (String a p) 0 w.
Proof.
  induction v as [|ch v IH]; intros H.
  - change (split_from (String a p) 0 (String a (p ++ w))
            = "" :: split_from (String a p) 0 w).
    change (split_from (String a p) 0 (String a (p ++ w)))
      with (if String.prefix (String a p) (String a (p ++ w))
            then EmptyString
                 :: split_from (String a p) (String.length (String a p) - 1) (p ++ w)
            else match split_from (String a p) 0 (p ++ w) with
                 | part :: parts => String a part :: parts
                 | [] => [String a EmptyString]
                 end).
    assert (String.prefix (String a p) (String a (p ++ w)) = true) as ->
      by exact (prefix_append (String a p) w).
    change (String.length (String a p) - 1) with (String.length p - 0).
    now rewrite Nat.sub_0_r, split_from_skip.
  - simpl in H. apply orb_false_elim in H as (E & H).
    change (split_from (String a p) 0 (String ch (v ++ String a p ++ w))
            = String ch v :: split_from (String a p) 0 w).
    change (split_from (String a p) 0 (String ch (v ++ String a p ++ w)))
      with (if String.prefix (String a p) (String ch (v ++ String a p ++ w))
            then EmptyString
                 :: split_from (String a p) (String.length (String a p) - 1)
                      (v ++ String a p ++ w)
            else match split_from (String a p) 0 (v ++ String a p ++ w) with
                 | part :: parts => String ch part :: parts
                 | [] => [String ch EmptyString]
                 end).
    now rewrite (prefix_head_differs a ch p _ E), (IH H).
Qed.

Lemma render_jar_value (c : string * string) (jar : list (string * string)) :
  "; " ++ render_jar (c :: jar) = jar_value (c :: jar).
Proof.
  unfold render_jar. revert c. induction jar as [|d jar IH]; intros c.
  - change ("; " ++ fst c ++ "=" ++ snd c = "; " ++ fst c ++ "=" ++ snd c ++ "").
    now rewrite append_nil_right.
  - change ("; " ++ (fst c ++ "=" ++ snd c) ++ "; "
            ++ String.concat "; " (map (fun c => fst c ++ "=" ++ snd c) (d :: jar))
            = "; " ++ fst c ++ "=" ++ snd c ++ jar_value (d :: jar)).
    rewrite <- (IH d). now rewrite !append_associative.
Qed.

Lemma occurs_append (a : ascii) (s s' : string) :
  occurs a (s ++ s') = occurs a s || occurs a s'.
Proof.
  induction s as [|ch s IH]; [reflexivity|].
  change (Ascii.eqb ch a || occurs a (s ++ s')
          = Ascii.eqb ch a || occurs a s || occurs a s').
  now rewrite IH, orb_assoc.
Qed.

(** A stretch free of the separator's first character joins the part that
    follows it. *)
Lemma split_from_prepend (a : ascii) (p v s x : string) (xs : list string) :
  occurs a v = false ->
  split_from (String a p) 0 s = x :: xs ->
  split_from (String a p) 0 (v ++ s) = (v ++ x) :: xs.
Proof.
  intros Hv Hs. induction v as [|ch v IH]; [exact Hs|].
  simpl in Hv. apply orb_false_elim in Hv as (E & Hv).
  change (split_from (String a p) 0 (String ch (v ++ s)) = String ch (v ++ x) :: xs).
  change (split_from (String a p) 0 (String ch (v ++ s)))
    with (if String.prefix (String a p) (String ch (v ++ s))
          then EmptyString
               :: split_from (String a p) (String.length (String a p) - 1) (v ++ s)
          else match split_from (String a p) 0 (v ++ s) with
               | part :: parts => String ch part :: parts
               | [] => [String ch EmptyString]
               end).
  now rewrite (prefix_head_differs a ch p _ E), (IH Hv).
Qed.

Lemma prefix_name_differs (name n rest : string) :
  occurs "=" name = false -> occurs "=" n = false -> name <> n ->
  String.prefix (name ++ "=") (n ++ "=" ++ rest) = false.
Proof.
  revert n. induction name as [|ch name IH]; intros [|ch' n] Hname Hn Hne.
  - congruence.
  - simpl in Hn. apply orb_false_elim in Hn as (E & _).
    change (String.prefix (String "=" "") (String ch' (n ++ "=" ++ rest)) = false).
    now apply prefix_head_differs.
  - simpl in Hname. apply orb_false_elim in Hname as (E & _).
    change (String.prefix (String ch (name ++ "=")) (String "=" rest) = false).
    apply prefix_head_differs. rewrite Ascii.eqb_sym. exact E.
  - simpl in Hname, Hn.
    apply orb_false_elim in Hname as (_ & Hname).
    apply orb_false_elim in Hn as (_ & Hn).
    change (String.prefix (String ch (name ++ "=")) (String ch' (n ++ "=" ++ rest))
            = false).
    simpl. destruct (ascii_dec ch ch') as [->|]; [|reflexivity].
    apply IH; try assumption. congruence.
Qed.

Lemma cookie_parts_split (name : string) (jar : list (string * string)) :
  Forall well_formed_cookie jar ->
  occurs "=" name = false ->
  split_by ("; " ++ name ++ "=") (jar_value jar)
  = fst (cookie_parts name jar) :: snd (cookie_parts name jar).
Proof.
  intros Hwf Hname. unfold split_by.
  induction jar as [|c jar IH]; [reflexivity|].
  inversion Hwf as [|? ? (Hn1 & Hn2 & Hv) Hrest]; subst.
  specialize (IH Hrest). simpl cookie_parts.
  destruct (cookie_parts name jar) as [x xs]. simpl fst in IH; simpl snd in IH.
  change ("; " ++ name ++ "=") with (String ";" (String " " (name ++ "="))) in *.
  destruct (String.eqb_spec (fst c) name) as [Heq|Hne].
  - simpl fst; simpl snd.
    replace (jar_value (c :: jar))
      with ("" ++ String ";" (String " " (name ++ "=")) ++ (snd c ++ jar_value jar)).
    2:{ simpl jar_value. rewrite Heq.
        change ("; " ++ name ++ "=" ++ snd c ++ jar_value jar)
          with (String ";" (String " " (name ++ "=" ++ snd c ++ jar_value jar))).
        change ("" ++ String ";" (String " " (name ++ "="))
                ++ snd c ++ jar_value jar)
          with (String ";" (String " " ((name ++ "=") ++ snd c ++ jar_value jar))).
        now rewrite append_associative. }
    rewrite split_from_part by reflexivity.
    f_equal. now apply split_from_prepend.
  - simpl fst; simpl snd.
    change (jar_value (c :: jar))
      with (String ";" (String " " (fst c ++ "=" ++ snd c ++ jar_value jar))).
    change (split_from (String ";" (String " " (name ++ "="))) 0
              (String ";" (String " " (fst c ++ "=" ++ snd c ++ jar_value jar))))
      with (if String.prefix (String ";" (String " " (name ++ "=")))
                 (String ";" (String " " (fst c ++ "=" ++ snd c ++ jar_value jar)))
            then EmptyString
                 :: split_from (String ";" (String " " (name ++ "=")))
                      (String.length (String ";" (String " " (name ++ "="))) - 1)
                      (String " " (fst c ++ "=" ++ snd c ++ jar_value jar))
            else match split_from (String ";" (String " " (name ++ "="))) 0
                         (String " " (fst c ++ "=" ++ snd c ++ jar_value jar)) with
                 | part :: parts => String ";" part :: parts
                 | [] => [String ";" EmptyString]
                 end).
    assert (String.prefix (String ";" (String " " (name ++ "=")))
              (String ";" (String " " (fst c ++ "=" ++ snd c ++ jar_value jar)))
            = false) as ->.
    { change (String.prefix (name ++ "=") (fst c ++ "=" ++ snd c ++ jar_value jar)
              = false).
      apply prefix_name_differs; try assumption. congruence. }
    replace (String " " (fst c ++ "=" ++ snd c ++ jar_value jar))
      with ((String " " (fst c ++ "=" ++ snd c)) ++ jar_value jar).
    2:{ change (String " " ((fst c ++ "=" ++ snd c) ++ jar_value jar)
                = String " " (fst c ++ "=" ++ snd c ++ jar_value jar)).
        now rewrite !append_associative. }
    rewrite (split_from_prepend ";" _ (String " " (fst c ++ "=" ++ snd c))
               (jar_value jar) x xs); [|
      change (occurs ";" (" " ++ fst c ++ "=" ++ snd c) = false);
      rewrite !occurs_append, Hn1, Hv; reflexivity | exact IH].
    change (String ";" ((String " " (fst c ++ "=" ++ snd c)) ++ x) :: xs
            = String ";" (String " " (fst c ++ "=" ++ snd c ++ x)) :: xs).
    change (String " " (fst c ++ "=" ++ snd c) ++ x)
      with (String " " ((fst c ++ "=" ++ snd c) ++ x)).
    now rewrite !append_associative.
Qed.

Lemma cookie_parts_count (name : string) (jar : list (string * string)) :
  length (snd (cookie_parts name jar)) = length (cookies_named name jar).
Proof.
  induction jar as [|c jar IH]; [reflexivity|].
  unfold cookies_named in *. simpl.
  destruct (cookie_parts name jar) as [x xs].
  destruct (String.eqb (fst c) name); simpl in *; now rewrite IH.
Qed.

Lemma cookie_parts_none (name : string) (jar : list (string * string)) :
  cookies_named name jar = [] -> cookie_parts name jar = (jar_value jar, []).
Proof.
  unfold cookies_named. induction jar as [|c jar IH]; [reflexivity|].
  simpl. destruct (String.eqb (fst c) name); [discriminate|].
  intros H. now rewrite (IH H).
Qed.

Lemma jar_value_head (jar : list (string * string)) :
  jar_value jar = "" \/ exists x, jar_value jar = String ";" x.
Proof. destruct jar as [|c jar]; [now left | right; eexists; reflexivity]. Qed.

(** With one cookie of that name, the last part starts with its value,
    and what follows the value starts with [;]. *)
Lemma cookie_parts_one (name : string) (jar : list (string * string))
    (c : string * string) :
  cookies_named name jar = [c] ->
  exists x, snd (cookie_parts name jar) = [snd c ++ x]
            /\ (x = "" \/ exists x', x = String ";" x').
Proof.
  unfold cookies_named. induction jar as [|d jar IH]; [discriminate|].
  simpl. destruct (String.eqb (fst d) name) eqn:E.
  - intros [= -> Hrest]. rewrite (cookie_parts_none name jar Hrest).
    exists (jar_value jar). split; [reflexivity | apply jar_value_head].
  - intros H. destruct (IH H) as (x & Hx & Hhead).
    destruct (cookie_parts name jar) as [y ys]. exists x. now split.
Qed.

Lemma split_value_head (v x : string) :
  occurs ";" v = false ->
  (x = "" \/ exists x', x = String ";" x') ->
  head (split ";" (v ++ x)) = Some v.
Proof.
  intros Hv Hx. induction v as [|ch v IH].
  - destruct Hx as [->|(x' & ->)]; reflexivity.
  - simpl in Hv. apply orb_false_elim in Hv as (E & Hv). specialize (IH Hv).
    change (head (split ";" (String ch (v ++ x))) = Some (String ch v)).
    simpl. rewrite E.
    destruct (split ";" (v ++ x)) as [|y ys]; [discriminate|].
    simpl in IH. now injection IH as ->.
Qed.

Lemma getCookie_empty_jar (name : string) : getCookie name "" = None.
Proof.
  unfold getCookie, split_by.
  change ("; " ++ name ++ "=") with (String ";" (String " " (name ++ "="))).
  change ("; " ++ "") with (String ";" (String " " "")).
  change (split_from (String ";" (String " " (name ++ "="))) 0
            (String ";" (String " " "")))
    with (if String.prefix (String ";" (String " " (name ++ "=")))
               (String ";" (String " " ""))
          then EmptyString
               :: split_from (String ";" (String " " (name ++ "=")))
                    (String.length (String ";" (String " " (name ++ "="))) - 1)
                    (String " " "")
          else match split_from (String ";" (String " " (name ++ "="))) 0
                       (String " " "") with
               | part :: parts => String ";" part :: parts
               | [] => [String ";" EmptyString]
               end).
  assert (String.prefix (String ";" (String " " (name ++ "=")))
            (String ";" (String " " "")) = false) as -> by now destruct name.
  reflexivity.
Qed.

(** X18.  Over a jar of [name=value] cookies joined by ["; "], whose
    names and values are free of [;] and whose names are free of [=],
    [getCookie(name)] returns the value of the cookie of that name when
    there is exactly one, and null when there is none (the empty jar
    included) or more than one. *)
Theorem getCookie_well_formed_jar (name : string) (jar : list (string * string)) :
  Forall well_formed_cookie jar ->
  occurs "=" name = false ->
  getCookie name (render_jar jar)
  = match cookies_named name jar with
    | [c] => Some (snd c)
    | _ => None
    end.
Proof.
  intros Hwf Hname. destruct jar as [|c0 jar].
  { apply getCookie_empty_jar. }
  unfold getCookie. rewrite render_jar_value, (cookie_parts_split name _ Hwf Hname).
  pose proof (cookie_parts_count name (c0 :: jar)) as Hcount.
  destruct (cookies_named name (c0 :: jar)) as [|c [|c' cs]] eqn:Hnamed.
  - destruct (snd (cookie_parts name (c0 :: jar))); [reflexivity | discriminate].
  - destruct (cookie_parts_one name _ c Hnamed) as (x & -> & Hx).
    cbn [length Nat.eqb last].
    apply split_value_head; [|exact Hx].
    assert (Hin : In c (cookies_named name (c0 :: jar)))
      by (rewrite Hnamed; now left).
    apply filter_In in Hin as (Hin & _).
    rewrite List.Forall_forall in Hwf. now destruct (Hwf c Hin) as (_ & _ & Hv).
  - destruct (snd (cookie_parts name (c0 :: jar))) as [|p1 [|p2 ps]];
      try discriminate. reflexivity.
Qed.

Lemma getCookie_well_formed_jar_witness :
  Forall well_formed_cookie [("theme", "dark"); ("lang", "ar"); ("sid", "42")]
  /\ occurs "=" "lang" = false
  /\ getCookie "lang" (render_jar [("theme", "dark"); ("lang", "ar"); ("sid", "42")])
     = Some "ar".
Proof.
  assert (H : Forall well_formed_cookie
                [("theme", "dark"); ("lang", "ar"); ("sid", "42")])
    by (repeat constructor).
  split; [exact H|]. split; [reflexivity|].
  exact (getCookie_well_formed_jar "lang" _ H eq_refl).
Defined.



(** ** Debounce and throttle *)

Section Timers.

Context {A : Type}.

Lemma debounce_cleared (st : Debounce A) :
  debounce_inv st ->
  clearTimeout (debounce_timeout st) (debounce_pending st) = ∅.
Proof.
  intros Hinv. apply map_eq. intros j. rewrite lookup_empty.
  unfold clearTimeout. destruct (debounce_timeout st) as [id|] eqn:Ht.
  - destruct (decide (id = j)) as [->|Hne]; [apply lookup_delete_eq|].
    rewrite lookup_delete_ne by exact Hne.
    destruct (debounce_pending st !! j) as [x|] eqn:Hj; [|reflexivity].
    assert (Some id = Some j) as [= ->] by (rewrite <- Ht; apply Hinv; eauto).
    congruence.
  - destruct (debounce_pending st !! j) as [x|] eqn:Hj; [|reflexivity].
    assert (None = Some j) by (rewrite <- Ht; apply Hinv; eauto). discriminate.
Qed.

Lemma debounce_step_inv (st : Debounce A) (ev : Tick A) :
  debounce_inv st -> debounce_inv (debounce_step st ev).
Proof.
  intros Hinv. destruct ev as [args|id]; simpl.
  - intros j. simpl. rewrite (debounce_cleared st Hinv).
    destruct (decide (debounce_next st = j)) as [->|Hne]; [reflexivity|].
    rewrite lookup_insert_ne, lookup_empty by exact Hne. now intros [x [=]].
  - destruct (debounce_pending st !! id) as [args|] eqn:Hid; [|exact Hinv].
    intros j. simpl. intros Hj. apply Hinv.
    unfold clearTimeout in Hj. destruct (debounce_timeout st) as [t|].
    + destruct (decide (t = j)) as [->|H1];
        [rewrite lookup_delete_eq in Hj; now destruct Hj|].
      rewrite lookup_delete_ne in Hj by exact H1.
      destruct (decide (id = j)) as [->|H2];
        [rewrite lookup_delete_eq in Hj; now destruct Hj|].
      now rewrite lookup_delete_ne in Hj.
    + destruct (decide (id = j)) as [->|H2];
        [rewrite lookup_delete_eq in Hj; now destruct Hj|].
      now rewrite lookup_delete_ne in Hj.
Qed.

Lemma debounce_run_inv (trace : list (Tick A)) : debounce_inv (debounce_run trace).
Proof.
  unfold debounce_run. induction trace as [|ev trace IH] using rev_ind.
  - intros id. simpl. rewrite lookup_empty. now intros [x [=]].
  - rewrite fold_left_app. simpl. now apply debounce_step_inv.
Qed.

(** A burst of invocations leaves the timer of the last one pending, and
    nothing else; [func] has not been called. *)
Lemma debounce_burst (st : Debounce A) (calls : list A) (a : A) :
  debounce_inv st ->
  exists id,
    debounce_timeout (fold_left debounce_step (map Invoke (calls ++ [a])) st)
      = Some id
    /\ debounce_pending (fold_left debounce_step (map Invoke (calls ++ [a])) st)
       = {[ id := a ]}
    /\ debounce_calls (fold_left debounce_step (map Invoke (calls ++ [a])) st)
       = debounce_calls st.
Proof.
  revert st. induction calls as [|c calls IH]; intros st Hinv.
  - exists (debounce_next st). simpl. rewrite (debounce_cleared st Hinv).
    repeat split.
  - simpl. destruct (IH (debounce_step st (Invoke c)))
      as (id & Ht & Hp & Hc); [now apply debounce_step_inv|].
    exists id. repeat split; assumption.
Qed.

(** The pending timer fires: [func] is called with its arguments. *)
Lemma debounce_fire (st : Debounce A) (id : nat) (a : A) :
  debounce_timeout st = Some id ->
  debounce_pending st = {[ id := a ]} ->
  debounce_calls (debounce_step st (Fire id)) = (debounce_calls st ++ [a])%list
  /\ debounce_pending (debounce_step st (Fire id)) = ∅
  /\ forall id', id' <> id -> debounce_step st (Fire id') = st.
Proof.
  intros Ht Hp. unfold debounce_step. rewrite Hp, lookup_singleton_eq. simpl.
  rewrite Ht. split; [reflexivity|]. split.
  - unfold clearTimeout. now rewrite delete_singleton_eq, delete_empty.
  - intros id' Hne. now rewrite lookup_singleton_ne.
Qed.

(** X20.  Debounce: after any history, a burst of invocations calls
    [func] not at all and leaves exactly one timer pending, that of the
    last invocation; when it fires, [func] is called once, with the
    arguments of that last invocation, and no timer remains; the time of
    any other timer passes without effect. *)
Theorem debounce_last_call_wins (trace : list (Tick A)) (calls : list A) (a : A) :
  exists id,
    debounce_timeout (debounce_run (trace ++ map Invoke (calls ++ [a]))) = Some id
    /\ debounce_pending (debounce_run (trace ++ map Invoke (calls ++ [a])))
       = {[ id := a ]}
    /\ debounce_calls (debounce_run (trace ++ map Invoke (calls ++ [a])))
       = debounce_calls (debounce_run trace)
    /\ debounce_calls
         (debounce_run (trace ++ map Invoke (calls ++ [a]) ++ [Fire id]))
       = (debounce_calls (debounce_run trace) ++ [a])%list
    /\ debounce_pending
         (debounce_run (trace ++ map Invoke (calls ++ [a]) ++ [Fire id]))
       = ∅
    /\ forall id', id' <> id ->
         debounce_run (trace ++ map Invoke (calls ++ [a]) ++ [Fire id'])
         = debounce_run (trace ++ map Invoke (calls ++ [a])).
Proof.
  unfold debounce_run.
  destruct (debounce_burst (fold_left debounce_step trace debounce) calls a
              (debounce_run_inv trace)) as (id & Ht & Hp & Hc).
  destruct (debounce_fire _ id a Ht Hp) as (F1 & F2 & F3).
  exists id. rewrite !fold_left_app. cbn [fold_left].
  split; [exact Ht|]. split; [exact Hp|]. split; [exact Hc|].
  split; [now rewrite F1, Hc|]. split; [exact F2|].
  intros id' Hne. rewrite !fold_left_app. cbn [fold_left]. now apply F3.
Qed.

Variable throws : A -> bool.

Lemma throttle_run_inv (trace : list (Tick A)) :
  throttle_inv (throttle_run throws trace)
  /\ length (returned throws (throttle_run throws trace))
     + (if inThrottle (throttle_run throws trace) then 0 else 1)
     <= S (fires trace).
Proof.
  unfold throttle_run, fires, returned.
  induction trace as [|ev trace IH] using rev_ind.
  - split; [left; now split | simpl; lia].
  - rewrite fold_left_app, List.filter_app, length_app. simpl.
    set (st := fold_left (throttle_step throws) trace throttle) in *.
    destruct IH as (Hinv & Hcount).
    destruct ev as [args|id]; simpl.
    + destruct Hinv as [(Hin & Hp)|(Hin & id & Hp)]; rewrite Hin in *.
      * destruct (throws args) eqn:Hthrows; simpl.
        -- split; [left; now split|].
           rewrite List.filter_app, length_app. simpl. rewrite Hthrows. simpl. lia.
        -- split; [right; split; [reflexivity|]; exists (throttle_next st);
                   rewrite Hp; set_solver|].
           rewrite List.filter_app, length_app. simpl. rewrite Hthrows. simpl. lia.
      * split; [right; split; [exact Hin | eauto]|]. rewrite Hin. lia.
    + case_bool_decide as Hid; simpl.
      * split.
        -- left. split; [reflexivity|].
           destruct Hinv as [(Hin & Hp)|(Hin & id0 & Hp)];
             rewrite Hp in *; set_solver.
        -- destruct (inThrottle st); lia.
      * split; [exact Hinv|]. destruct (inThrottle st); lia.
Qed.

(** X21.  Throttle: in every state the closure can reach, calls are
    dropped exactly while one reset timer is pending, and there is never a
    second one; a dropped call changes nothing; the expiry of the pending
    timer re-opens the closure, so that the next call goes through.
    Hence [func] has returned at most once more often than timers have
    expired. *)
Theorem throttle_one_window (trace : list (Tick A)) :
  (inThrottle (throttle_run throws trace) = false
   /\ throttle_pending (throttle_run throws trace) = ∅
   \/ inThrottle (throttle_run throws trace) = true
      /\ exists id, throttle_pending (throttle_run throws trace) = {[ id ]})
  /\ (forall a, inThrottle (throttle_run throws trace) = true ->
        throttle_run throws (trace ++ [Invoke a]) = throttle_run throws trace)
  /\ (forall a, inThrottle (throttle_run throws trace) = false ->
        throttle_calls (throttle_run throws (trace ++ [Invoke a]))
        = (throttle_calls (throttle_run throws trace) ++ [a])%list)
  /\ (forall id, id ∈ throttle_pending (throttle_run throws trace) ->
        inThrottle (throttle_run throws (trace ++ [Fire id])) = false
        /\ throttle_pending (throttle_run throws (trace ++ [Fire id])) = ∅)
  /\ length (returned throws (throttle_run throws trace)) <= S (fires trace).
Proof.
  destruct (throttle_run_inv trace) as (Hinv & Hcount).
  split; [exact Hinv|].
  unfold throttle_run in *. setoid_rewrite fold_left_app. simpl.
  set (st := fold_left (throttle_step throws) trace throttle) in *.
  split; [now intros a ->|]. split.
  - intros a ->. now destruct (throws a).
  - split.
    + intros id Hid. rewrite bool_decide_true by exact Hid. simpl.
      split; [reflexivity|].
      destruct Hinv as [(_ & Hp)|(_ & id0 & Hp)]; rewrite Hp in *; set_solver.
    + destruct (inThrottle st); lia.
Qed.

End Timers.

(** ** Start-up and the switcher *)


(** No attempt touches the dropdown. *)
Lemma setLanguage_try_dropdown (c : string) (w w' : World) (r : Result bool) :
  setLanguage_try c w = Some (r, w') ->
  lang_dropdown (document w') = lang_dropdown (document w).
Proof.
  intros E.
  destruct (setLanguage_try_attempt c w) as (r0 & w0 & E0 & HA).
  rewrite E in E0. injection E0 as <- <-.
  destruct r as [b|e].
  - inversion HA as [| |body d ? Hn Hd _ _ _ _ _]; subst.
    unfold meta_dir in Hd.
    destruct (get_prop body "meta") as [meta|] eqn:Hmeta; [|discriminate].
    destruct (get_prop_total_on meta "dir" "lang" d Hd) as [lang Hlang].
    destruct (setLanguage_try_applied c w body meta lang d Hn Hmeta Hlang Hd)
      as (w3 & E3 & _ & _ & _ & _ & _ & _ & _ & _ & DD & _).
    rewrite E in E3. now injection E3 as <-.
  - destruct (Attempt_throw_frame _ _ _ _ HA) as (_ & _ & ->). reflexivity.
Qed.

Lemma setLanguage_dropdown (c : string) (w w' : World) (r : Result bool) :
  setLanguage c w = Some (r, w') ->
  lang_dropdown (document w') = lang_dropdown (document w).
Proof.
  unfold setLanguage. rewrite setLanguage_fuel_unfold.
  destruct (setLanguage_try c w) as [[[b|e] w1]|] eqn:E1; [| |discriminate].
  - intros [= <- <-]. exact (setLanguage_try_dropdown _ _ _ _ E1).
  - pose proof (setLanguage_try_dropdown _ _ _ _ E1) as D1.
    destruct (negb (c =? defaultLang (i18n w1))%string).
    + rewrite setLanguage_fuel_unfold.
      destruct (setLanguage_try (defaultLang (i18n w1)) w1)
        as [[[b2|e2] w2]|] eqn:E2; [| |discriminate].
      * intros [= <- <-].
        now rewrite (setLanguage_try_dropdown _ _ _ _ E2).
      * pose proof (setLanguage_try_dropdown _ _ _ _ E2) as D2.
        destruct (negb (defaultLang (i18n w1) =? defaultLang (i18n w2))%string);
          [discriminate|].
        intros [= <- <-]. congruence.
    + intros [= <- <-]. exact D1.
Qed.


(** X23.  [setLanguage] settles after one or two bundle requests, whatever
    the server does: the recursive call is for the default language, whose
    failure ends the call, so a depth of two is all the recursion ever
    uses.  The call resolves to a boolean and never rejects; it leaves the
    registry, the default language and the dropdown of the page as they
    were. *)
Theorem setLanguage_always_resolves (n : nat) (c : string) (w : World) :
  exists b w',
    setLanguage c w = Some (Ok b, w')
    /\ setLanguage_fuel (S (S n)) c w = Some (Ok b, w')
    /\ (requests w' = (requests w ++ [GetBundle c])%list
        \/ (c <> defaultLang (i18n w)
            /\ requests w'
               = (requests w ++ [GetBundle c; GetBundle (defaultLang (i18n w))])%list))
    /\ getLanguages (i18n w') = getLanguages (i18n w)
    /\ defaultLang (i18n w') = defaultLang (i18n w)
    /\ lang_dropdown (document w') = lang_dropdown (document w).
Proof.
  destruct (setLanguage_run 0 c w) as (b & w' & E & HS).
  exists b, w'.
  split; [exact E|].
  split; [now rewrite setLanguage_enough_fuel|].
  split.
  - inversion HS as [? HA|e wa HA Heq|e wa ra ? HA Hne HA2 Hr]; subst.
    + destruct (Attempt_frame _ _ _ _ HA) as (_ & _ & _ & ->). now left.
    + destruct (Attempt_frame _ _ _ _ HA) as (_ & _ & _ & ->). now left.
    + destruct (Attempt_frame _ _ _ _ HA) as (_ & _ & _ & Ra).
      destruct (Attempt_frame _ _ _ _ HA2) as (_ & _ & _ & ->).
      right. split; [exact Hne|]. now rewrite Ra, <- app_assoc.
  - destruct (SetLanguage_frame _ _ _ _ HS) as (L & D).
    unfold getLanguages.
    split; [exact L|]. split; [exact D|].
    exact (setLanguage_dropdown _ _ _ _ E).
Qed.

